(** * better-prompts: the prompt-enhancement pipeline, embedded and verified

    The development follows the TypeScript sources:
    - [Templates]   the template catalog ([PROMPT_TEMPLATES], [getTemplatesByIntent],
                    [getTemplateById]);
    - [RuleEngine]  the offline engine ([detectIntent], [expandWords],
                    [addTechnicalTerms], [improveStructure], [formatContext], [enhance],
                    [quickEnhance]);
    - [LLMDetector] the assistant detector with its time-to-live cache
                    ([detect], [getAllAvailable], [clearCache]);
    - [AIEnhancer]  the AI orchestrator ([checkOllama], [enhance], the provider
                    calls and [getStatus]);
    - [ContextGatherer] the git status of the workspace ([getGitStatus]).

    JavaScript strings are sequences of UTF-16 code units.  The tables of
    the program are plain ASCII.  The texts of the user are taken over the
    code units of Latin-1 and the three units beyond it that upper- and
    lower-casing reach from there ([codeunit]); on them [toLowerCase],
    [toUpperCase], [trim] and the regular-expression classes [\w], [\s],
    [\b], [.] and [[a-zA-Z]] are the ones of ECMAScript. *)

From Stdlib Require Import Ascii String.
From Stdlib Require Import List Arith Bool Lia ZArith.
From Stdlib Require Import Sorting.Sorted Sorting.Permutation.
Import ListNotations.

(* ===================================================================== *)
(** * JavaScript strings *)
(* ===================================================================== *)

Module JS.

(** A code unit.  The texts of the program are read over Latin-1, the
    code units 0 to 255, and the three units beyond it that the case
    mappings of Latin-1 reach: the upper case of the micro sign, its lower
    case, and the upper case of y with diaeresis.  This set of units is
    closed under [toLowerCase], [toUpperCase] and the canonicalization of
    the flag [i]. *)
Inductive codeunit : Type :=
| Latin (c : ascii)       (* U+0000 to U+00FF *)
| GreekCapitalMu          (* U+039C *)
| GreekSmallMu            (* U+03BC *)
| CapitalYDiaeresis.      (* U+0178 *)

(** A string is its list of code units. *)
Definition jsstring := list codeunit.

(** A literal of the source. *)
Definition lit (s : string) : jsstring := map Latin (list_ascii_of_string s).

Definition code (c : codeunit) : nat :=
  match c with
  | Latin a => nat_of_ascii a
  | GreekCapitalMu => 924
  | GreekSmallMu => 956
  | CapitalYDiaeresis => 376
  end.

(** The unit of a code below 256. *)
Definition unitOf (n : nat) : codeunit := Latin (ascii_of_nat n).

Definition isUpper (c : codeunit) : bool := (65 <=? code c) && (code c <=? 90).
Definition isLower (c : codeunit) : bool := (97 <=? code c) && (code c <=? 122).
Definition isDigit (c : codeunit) : bool := (48 <=? code c) && (code c <=? 57).

(** The class [[a-zA-Z]]. *)
Definition isLetter (c : codeunit) : bool := isUpper c || isLower c.

(** The class [\w]: letters, digits and the underscore. *)
Definition isWordChar (c : codeunit) : bool :=
  isLetter c || isDigit c || (code c =? 95).

(** The class [\s], and the white space of [trim]: TAB, LF, VT, FF, CR,
    the space and the no-break space. *)
Definition isSpace (c : codeunit) : bool :=
  ((9 <=? code c) && (code c <=? 13)) || (code c =? 32) || (code c =? 160).

(** The class [.]: everything but a line terminator. *)
Definition isDot (c : codeunit) : bool :=
  negb ((code c =? 10) || (code c =? 13)).

(** The lower case of a unit: of A to Z, of the capital letters of
    Latin-1 (U+00C0 to U+00DE but the multiplication sign), and of the two
    capitals beyond Latin-1. *)
Definition lowerChar (c : codeunit) : codeunit :=
  let n := code c in
  if isUpper c || ((192 <=? n) && (n <=? 222) && negb (n =? 215))
  then unitOf (n + 32)
  else match c with
       | GreekCapitalMu => GreekSmallMu
       | CapitalYDiaeresis => unitOf 255
       | _ => c
       end.

(** The upper case of a unit, a text: of a to z, of the small letters of
    Latin-1 (U+00E0 to U+00FE but the division sign), of the sharp s,
    which becomes SS, and of the three small letters whose capital lies
    beyond Latin-1. *)
Definition upperUnits (c : codeunit) : jsstring :=
  let n := code c in
  if isLower c || ((224 <=? n) && (n <=? 254) && negb (n =? 247))
  then [unitOf (n - 32)]
  else if n =? 223 then [unitOf 83; unitOf 83]
  else if n =? 181 then [GreekCapitalMu]
  else if n =? 255 then [CapitalYDiaeresis]
  else if n =? 956 then [GreekCapitalMu]
  else [c].

(** [String.prototype.toLowerCase] and [toUpperCase]. *)
Definition toLowerCase (s : jsstring) : jsstring := map lowerChar s.
Definition toUpperCase (s : jsstring) : jsstring := flat_map upperUnits s.

(** [Canonicalize] of the flag [i]: the upper case of the unit when it is
    one unit, unless it would turn a unit beyond ASCII into an ASCII one. *)
Definition canonicalize (c : codeunit) : codeunit :=
  match upperUnits c with
  | [u] => if (128 <=? code c) && (code u <? 128) then c else u
  | _ => c
  end.

Definition eqc (a b : codeunit) : bool :=
  match a, b with
  | Latin x, Latin y => Ascii.eqb x y
  | GreekCapitalMu, GreekCapitalMu => true
  | GreekSmallMu, GreekSmallMu => true
  | CapitalYDiaeresis, CapitalYDiaeresis => true
  | _, _ => false
  end.

Definition codeunit_dec (a b : codeunit) : {a = b} + {a <> b}.
Proof. decide equality. apply ascii_dec. Defined.

(** [startsWith p s]: [p] is a prefix of [s]. *)
Fixpoint startsWith (p s : jsstring) : bool :=
  match p, s with
  | [], _ => true
  | _ :: _, [] => false
  | a :: p', b :: s' => eqc a b && startsWith p' s'
  end.

(** [String.prototype.indexOf]: the first position at which [p] occurs. *)
Fixpoint indexOf (p s : jsstring) : option nat :=
  if startsWith p s then Some 0
  else match s with
       | [] => None
       | _ :: s' => option_map S (indexOf p s')
       end.

(** [String.prototype.includes]. *)
Definition includes (s p : jsstring) : bool :=
  match indexOf p s with Some _ => true | None => false end.

(** [s.substring(a, b)] for [a <= b]. *)
Definition substring (a b : nat) (s : jsstring) : jsstring :=
  firstn (b - a) (skipn a s).

(** [s.charAt(0)] and [s.slice(1)]. *)
Definition charAt0 (s : jsstring) : jsstring := firstn 1 s.
Definition slice1 (s : jsstring) : jsstring := skipn 1 s.

(** [Array.prototype.join]. *)
Fixpoint join (sep : jsstring) (l : list jsstring) : jsstring :=
  match l with
  | [] => []
  | [x] => x
  | x :: rest => x ++ sep ++ join sep rest
  end.

(** Truthiness of a string: the empty string is falsy. *)
Definition truthy (s : jsstring) : bool :=
  match s with [] => false | _ :: _ => true end.

(** Truthiness of an optional string field: [undefined] and [''] are falsy. *)
Definition truthyOpt (o : option jsstring) : bool :=
  match o with Some s => truthy s | None => false end.

(** [o || ''] for an optional string field. *)
Definition orEmpty (o : option jsstring) : jsstring :=
  match o with Some s => s | None => [] end.

(** [a === b] on strings. *)
Definition str_eqb (a b : jsstring) : bool :=
  if list_eq_dec codeunit_dec a b then true else false.

(** [String.prototype.trim]. *)
Fixpoint trimStart (s : jsstring) : jsstring :=
  match s with
  | c :: s' => if isSpace c then trimStart s' else s
  | [] => []
  end.
Definition trimEnd (s : jsstring) : jsstring := rev (trimStart (rev s)).
Definition trim (s : jsstring) : jsstring := trimEnd (trimStart s).

(** ** GetSubstitution

    The replacement text of [String.prototype.replace] is a template:
    [$$] stands for a dollar, [$&] for the match, [$`] and [$'] for the
    text before and after it, and [$1] ([$01]) for the first capture when
    the pattern has one.  Every other use of the dollar is literal.
    [ngroups] is the number of capture groups of the pattern (0 for a
    string pattern, at most 1 in this program). *)
Section GetSubstitution.
Variables (matched before after : jsstring).
Variable ngroups : nat.
Variable cap1 : jsstring.

Fixpoint getSubstitution (t : jsstring) : jsstring :=
  match t with
  | [] => []
  | c :: t1 =>
    if negb (code c =? 36) then c :: getSubstitution t1
    else
      match t1 with
      | [] => [c]
      | d :: t2 =>
        if code d =? 36 then c :: getSubstitution t2
        else if code d =? 38 then matched ++ getSubstitution t2
        else if code d =? 96 then before ++ getSubstitution t2
        else if code d =? 39 then after ++ getSubstitution t2
        else if (code d =? 48) && (1 <=? ngroups) then
          match t2 with
          | e :: t3 =>
            if code e =? 49 then cap1 ++ getSubstitution t3
            else c :: d :: getSubstitution t2
          | [] => c :: d :: getSubstitution t2
          end
        else if (code d =? 49) && (1 <=? ngroups) then
          cap1 ++ getSubstitution t2
        else c :: d :: getSubstitution t2
      end
  end.
End GetSubstitution.

(** [s.replace(pattern, replacement)] with a string pattern: only the
    first occurrence is replaced, and the replacement is a template. *)
Definition replaceStr (pattern replacement s : jsstring) : jsstring :=
  match indexOf pattern s with
  | None => s
  | Some i =>
    let before := firstn i s in
    let after := skipn (i + length pattern) s in
    before ++ getSubstitution pattern before after 0 [] replacement ++ after
  end.

End JS.

(* ===================================================================== *)
(** * Regular expressions *)
(* ===================================================================== *)

(** The fragment of JavaScript regular expressions the program uses, with
    the backtracking semantics of the language: alternatives are tried
    left to right, quantifiers are greedy, and the first success wins. *)
Module Regex.
Import JS.

Inductive regex : Type :=
| REmpty                      (* the empty pattern *)
| RChar (c : codeunit)           (* a literal character *)
| RClass (p : codeunit -> bool)  (* a character class *)
| RSeq (r1 r2 : regex)        (* r1 r2 *)
| RAlt (r1 r2 : regex)        (* r1 | r2 *)
| RStar (r : regex)           (* r*, greedy *)
| RPlus (r : regex)           (* r+, greedy *)
| RGroup (r : regex)          (* ( r ), the capture group 1 *)
| RBol                        (* ^ *)
| REol                        (* $ *)
| RWordB.                     (* \b *)

(** The pattern of a literal text. *)
Definition rlit (s : jsstring) : regex :=
  fold_right (fun c r => RSeq (RChar c) r) REmpty s.

(** The capture of group 1: its start and end positions. *)
Definition caps := option (nat * nat).

Section Matcher.
(** The flag [i] and the subject string. *)
Variable icase : bool.
Variable s : jsstring.

(** Under the flag [i] two units are the same when they canonicalize to
    the same unit. *)
Definition sameChar (a b : codeunit) : bool :=
  if icase then eqc (canonicalize a) (canonicalize b) else eqc a b.

Definition wordAt (i : nat) : bool :=
  match nth_error s i with Some a => isWordChar a | None => false end.

(** [\b] at position [i]: exactly one side is a word character. *)
Definition atWordBoundary (i : nat) : bool :=
  xorb (match i with 0 => false | S j => wordAt j end) (wordAt i).

Definition cont := nat -> caps -> option (nat * caps).

(** Greedy iteration of a matcher: an iteration that consumes nothing
    is rejected.  Every accepted iteration advances, so
    [S (length s)] rounds are never exhausted. *)
Fixpoint star (m : nat -> caps -> cont -> option (nat * caps))
         (fuel : nat) (i : nat) (c : caps) (k : cont) : option (nat * caps) :=
  match fuel with
  | 0 => k i c
  | S f =>
    match m i c (fun j c' => if i <? j then star m f j c' k else None) with
    | Some x => Some x
    | None => k i c
    end
  end.

Fixpoint rmatch (r : regex) (i : nat) (c : caps) (k : cont)
  : option (nat * caps) :=
  match r with
  | REmpty => k i c
  | RChar ch =>
    match nth_error s i with
    | Some a => if sameChar a ch then k (S i) c else None
    | None => None
    end
  | RClass p =>
    match nth_error s i with
    | Some a => if p a then k (S i) c else None
    | None => None
    end
  | RSeq r1 r2 => rmatch r1 i c (fun j c' => rmatch r2 j c' k)
  | RAlt r1 r2 =>
    match rmatch r1 i c k with
    | Some x => Some x
    | None => rmatch r2 i c k
    end
  | RStar r' => star (rmatch r') (S (length s)) i c k
  | RPlus r' =>
    rmatch r' i c (fun j c' => star (rmatch r') (S (length s)) j c' k)
  | RGroup r' => rmatch r' i c (fun j _ => k j (Some (i, j)))
  | RBol => if i =? 0 then k i c else None
  | REol => if i =? length s then k i c else None
  | RWordB => if atWordBoundary i then k i c else None
  end.

(** A match attempt at position [i]. *)
Definition matchAt (r : regex) (i : nat) : option (nat * caps) :=
  rmatch r i None (fun j c => Some (j, c)).

(** The leftmost match among the [n] positions from [i] on. *)
Fixpoint search (r : regex) (n i : nat) : option (nat * nat * caps) :=
  match n with
  | 0 => None
  | S n' =>
    match matchAt r i with
    | Some (j, c) => Some (i, j, c)
    | None => search r n' (S i)
    end
  end.

(** [RegExp.prototype.exec] from [lastIndex]: positions up to the end
    of the subject, the end included. *)
Definition exec (r : regex) (lastIndex : nat) : option (nat * nat * caps) :=
  search r (S (length s) - lastIndex) lastIndex.

Definition captured (c : caps) : jsstring :=
  match c with Some (a, b) => substring a b s | None => [] end.

(** The text that replaces the match [(i, j, c)]. *)
Definition substitute (ngroups : nat) (template : jsstring)
           (i j : nat) (c : caps) : jsstring :=
  getSubstitution (substring i j s) (firstn i s) (skipn j s)
                  ngroups (captured c) template.

(** [s.replace(r, template)] without the flag [g]. *)
Definition replaceFirst (r : regex) (ngroups : nat) (template : jsstring)
  : jsstring :=
  match exec r 0 with
  | None => s
  | Some (i, j, c) =>
    firstn i s ++ substitute ngroups template i j c ++ skipn j s
  end.

(** The loop of [s.replace(r, template)] with the flag [g]: [last] is
    [lastIndex] and [next] the position behind the previous match; after
    an empty match [lastIndex] advances by one. *)
Fixpoint replaceLoop (r : regex) (ngroups : nat) (template : jsstring)
         (fuel last next : nat) : jsstring :=
  match fuel with
  | 0 => skipn next s
  | S f =>
    match exec r last with
    | None => skipn next s
    | Some (i, j, c) =>
      substring next i s ++ substitute ngroups template i j c
        ++ replaceLoop r ngroups template f (if j =? i then S j else j) j
    end
  end.

Definition replaceAll (r : regex) (ngroups : nat) (template : jsstring)
  : jsstring :=
  replaceLoop r ngroups template (S (S (length s))) 0 0.
End Matcher.

End Regex.

(** A regular-expression object: its pattern, its flags [g] and [i], and
    the number of its capture groups. *)
Record RegExp : Type := {
  pattern : Regex.regex;
  global : bool;
  ignoreCase : bool;
  ngroups : nat
}.

(** [s.replace(re, template)]. *)
Definition replaceRe (re : RegExp) (template s : JS.jsstring) : JS.jsstring :=
  if global re
  then Regex.replaceAll (ignoreCase re) s (pattern re) (ngroups re) template
  else Regex.replaceFirst (ignoreCase re) s (pattern re) (ngroups re) template.

(* ===================================================================== *)
(** * The shared types *)
(* ===================================================================== *)

Module Types.
Import JS.

Inductive TaskIntent : Type :=
| IFix | IAdd | IChange | IExplain | ITest | IReview | IImprove | IDocument.

Definition intent_eqb (a b : TaskIntent) : bool :=
  match a, b with
  | IFix, IFix | IAdd, IAdd | IChange, IChange | IExplain, IExplain
  | ITest, ITest | IReview, IReview | IImprove, IImprove
  | IDocument, IDocument => true
  | _, _ => false
  end.

Record PromptContext : Type := {
  fileName : option jsstring;
  filePath : option jsstring;
  language : option jsstring;
  selectedCode : option jsstring;
  projectStructure : option jsstring;
  gitStatus : option jsstring;
  relatedFiles : option (list jsstring)
}.

Record IncludeContext : Type := {
  file : bool;
  selection : bool;
  project : bool;
  git : bool
}.

Record PromptRequest : Type := {
  intent : TaskIntent;
  userInput : jsstring;
  context : PromptContext;
  includeContext : IncludeContext
}.

Record EnhancedPrompt : Type := {
  prompt : jsstring;
  preview : jsstring;
  wasAiEnhanced : bool
}.

Inductive LLMProvider : Type :=
| claude_code | cursor | copilot | continue | cody | manual | none.

Record LLMDetectionResult : Type := {
  provider : LLMProvider;
  available : bool;
  canEnhance : bool;
  displayName : jsstring
}.

Record PromptTemplate : Type := {
  id : jsstring;
  name : jsstring;
  tintent : TaskIntent;
  template : jsstring;
  description : jsstring;
  placeholders : list jsstring
}.

Record RuleMapping : Type := {
  keywords : list jsstring;
  expansion : jsstring;
  technicalTerms : list jsstring
}.

End Types.

(* ===================================================================== *)
(** * The template catalog *)
(* ===================================================================== *)

Module Templates.
Import JS Types.

Definition PROMPT_TEMPLATES : list PromptTemplate := [
  {| id := lit "fix-bug";
     name := lit "Fix Bug";
     tintent := IFix;
     template := lit "Fix the bug in this code. The issue is: {issue}

{context}

Please:
1. Identify the root cause of the bug
2. Provide a corrected implementation
3. Explain what was wrong and why the fix works";
     description := lit "Debug and fix issues in code";
     placeholders := [lit "issue"] |};
  {| id := lit "fix-error";
     name := lit "Fix Error";
     tintent := IFix;
     template := lit "I'm getting this error: {error}

{context}

Please help me:
1. Understand what's causing this error
2. Fix the code to resolve it
3. Prevent similar errors in the future";
     description := lit "Fix specific error messages";
     placeholders := [lit "error"] |};
  {| id := lit "add-feature";
     name := lit "Add Feature";
     tintent := IAdd;
     template := lit "Add the following feature: {feature}

{context}

Requirements:
- Follow existing code patterns and conventions
- Include proper error handling
- Make it production-ready";
     description := lit "Implement new functionality";
     placeholders := [lit "feature"] |};
  {| id := lit "add-function";
     name := lit "Add Function";
     tintent := IAdd;
     template := lit "Create a function that: {description}

{context}

Please:
- Use appropriate parameter types
- Include input validation
- Handle edge cases
- Add JSDoc/docstring comments";
     description := lit "Create a new function";
     placeholders := [lit "description"] |};
  {| id := lit "change-refactor";
     name := lit "Refactor Code";
     tintent := IChange;
     template := lit "Refactor this code to: {goal}

{context}

Guidelines:
- Maintain the same functionality
- Improve code quality and readability
- Follow best practices for this language";
     description := lit "Improve code structure";
     placeholders := [lit "goal"] |};
  {| id := lit "change-update";
     name := lit "Update Code";
     tintent := IChange;
     template := lit "Update this code: {changes}

{context}

Please ensure:
- Backward compatibility where possible
- All related code is updated consistently
- No functionality is broken";
     description := lit "Modify existing code";
     placeholders := [lit "changes"] |};
  {| id := lit "explain-code";
     name := lit "Explain Code";
     tintent := IExplain;
     template := lit "Explain this code in detail:

{context}

Please cover:
1. What this code does (high-level overview)
2. How it works (step-by-step breakdown)
3. Key concepts or patterns used
4. Any potential issues or improvements";
     description := lit "Get detailed code explanation";
     placeholders := [] |};
  {| id := lit "explain-simple";
     name := lit "Explain Simply";
     tintent := IExplain;
     template := lit "Explain this code in simple terms that a beginner can understand:

{context}

Use:
- Simple language, avoid jargon
- Analogies where helpful
- Step-by-step breakdown";
     description := lit "Get beginner-friendly explanation";
     placeholders := [] |};
  {| id := lit "test-unit";
     name := lit "Write Unit Tests";
     tintent := ITest;
     template := lit "Write unit tests for this code:

{context}

Include tests for:
- Normal/expected inputs
- Edge cases
- Error conditions
- Boundary values

Use the testing framework appropriate for this language/project.";
     description := lit "Generate unit tests";
     placeholders := [] |};
  {| id := lit "test-specific";
     name := lit "Test Specific Scenario";
     tintent := ITest;
     template := lit "Write tests for the following scenario: {scenario}

{context}

Make sure to cover:
- The main scenario
- Related edge cases
- Failure modes";
     description := lit "Test specific functionality";
     placeholders := [lit "scenario"] |};
  {| id := lit "review-code";
     name := lit "Code Review";
     tintent := IReview;
     template := lit "Review this code for:

{context}

Please check for:
1. Bugs or logic errors
2. Security vulnerabilities
3. Performance issues
4. Code style and best practices
5. Suggestions for improvement";
     description := lit "Get comprehensive code review";
     placeholders := [] |};
  {| id := lit "review-security";
     name := lit "Security Review";
     tintent := IReview;
     template := lit "Perform a security review of this code:

{context}

Check for:
- Input validation issues
- Injection vulnerabilities (SQL, XSS, etc.)
- Authentication/authorization flaws
- Data exposure risks
- Other OWASP Top 10 vulnerabilities";
     description := lit "Focus on security issues";
     placeholders := [] |};
  {| id := lit "improve-performance";
     name := lit "Improve Performance";
     tintent := IImprove;
     template := lit "Optimize this code for better performance:

{context}

Focus on:
- Reducing time complexity
- Minimizing memory usage
- Eliminating unnecessary operations
- Using more efficient algorithms/data structures";
     description := lit "Optimize code performance";
     placeholders := [] |};
  {| id := lit "improve-readability";
     name := lit "Improve Readability";
     tintent := IImprove;
     template := lit "Improve the readability of this code:

{context}

Please:
- Use clearer variable/function names
- Break down complex logic
- Add helpful comments where needed
- Follow language conventions";
     description := lit "Make code more readable";
     placeholders := [] |};
  {| id := lit "document-code";
     name := lit "Add Documentation";
     tintent := IDocument;
     template := lit "Add documentation to this code:

{context}

Include:
- Function/method documentation (JSDoc, docstrings, etc.)
- Inline comments for complex logic
- Usage examples where helpful";
     description := lit "Generate code documentation";
     placeholders := [] |};
  {| id := lit "document-readme";
     name := lit "Write README";
     tintent := IDocument;
     template := lit "Write a README for this code/project:

{context}

Include:
- Project description
- Installation instructions
- Usage examples
- API documentation (if applicable)
- Contributing guidelines";
     description := lit "Create README documentation";
     placeholders := [] |}
].

Definition getTemplatesByIntent (i : TaskIntent) : list PromptTemplate :=
  filter (fun t => intent_eqb (tintent t) i) PROMPT_TEMPLATES.

Definition getTemplateById (i : jsstring) : option PromptTemplate :=
  find (fun t => str_eqb (id t) i) PROMPT_TEMPLATES.

End Templates.

(* ===================================================================== *)
(** * The rule engine *)
(* ===================================================================== *)

Module RuleEngine.
Import JS Regex Types Templates.

(** Keyword mappings for intent detection, in the order of
    [Object.entries]. *)
Definition INTENT_KEYWORDS : list (TaskIntent * list jsstring) := [
  (IFix, [lit "fix"; lit "bug"; lit "error"; lit "broken"; lit "not work"; lit "doesnt work"; lit "doesn't work"; lit "fail"; lit "crash"; lit "issue"; lit "problem"; lit "wrong"; lit "debug"; lit "repair"; lit "solve"]);
  (IAdd, [lit "add"; lit "create"; lit "new"; lit "implement"; lit "make"; lit "build"; lit "write"; lit "generate"; lit "insert"]);
  (IChange, [lit "change"; lit "update"; lit "modify"; lit "edit"; lit "refactor"; lit "rename"; lit "move"; lit "replace"; lit "convert"; lit "transform"]);
  (IExplain, [lit "explain"; lit "what"; lit "how"; lit "why"; lit "understand"; lit "mean"; lit "does this"; lit "tell me"; lit "describe"; lit "clarify"]);
  (ITest, [lit "test"; lit "testing"; lit "unit test"; lit "spec"; lit "coverage"; lit "mock"; lit "assert"]);
  (IReview, [lit "review"; lit "check"; lit "audit"; lit "inspect"; lit "analyze"; lit "evaluate"; lit "assess"]);
  (IImprove, [lit "improve"; lit "optimize"; lit "faster"; lit "better"; lit "performance"; lit "speed"; lit "efficient"; lit "enhance"; lit "upgrade"; lit "clean"]);
  (IDocument, [lit "document"; lit "docs"; lit "readme"; lit "comment"; lit "jsdoc"; lit "docstring"; lit "documentation"])
].

Definition WORD_EXPANSIONS : list (jsstring * jsstring) := [
  (lit "fix", lit "fix and debug");
  (lit "broken", lit "not working correctly");
  (lit "slow", lit "has performance issues and runs slowly");
  (lit "fast", lit "optimized for better performance");
  (lit "work", lit "function correctly");
  (lit "not work", lit "is not functioning as expected");
  (lit "doesnt work", lit "is not functioning as expected");
  (lit "doesn't work", lit "is not functioning as expected");
  (lit "bad", lit "poorly structured or inefficient");
  (lit "good", lit "well-structured and efficient");
  (lit "ugly", lit "poorly formatted and hard to read");
  (lit "clean", lit "well-organized and readable");
  (lit "messy", lit "disorganized and hard to maintain");
  (lit "make", lit "implement");
  (lit "do", lit "implement");
  (lit "want", lit "need to");
  (lit "need", lit "require");
  (lit "btn", lit "button");
  (lit "func", lit "function");
  (lit "var", lit "variable");
  (lit "arr", lit "array");
  (lit "obj", lit "object");
  (lit "str", lit "string");
  (lit "num", lit "number");
  (lit "bool", lit "boolean");
  (lit "db", lit "database");
  (lit "api", lit "API endpoint");
  (lit "auth", lit "authentication");
  (lit "err", lit "error");
  (lit "msg", lit "message");
  (lit "req", lit "request");
  (lit "res", lit "response");
  (lit "param", lit "parameter");
  (lit "arg", lit "argument");
  (lit "props", lit "properties");
  (lit "config", lit "configuration")
].

Definition TECHNICAL_ENHANCEMENTS : list RuleMapping := [
  {| keywords := [lit "button"; lit "click"; lit "press"];
     expansion := lit "button click handler";
     technicalTerms := [lit "onClick event"; lit "event handler"; lit "user interaction"] |};
  {| keywords := [lit "form"; lit "submit"; lit "input"];
     expansion := lit "form submission";
     technicalTerms := [lit "form validation"; lit "input handling"; lit "form state"] |};
  {| keywords := [lit "login"; lit "signin"; lit "sign in"];
     expansion := lit "user authentication";
     technicalTerms := [lit "authentication flow"; lit "credentials"; lit "session management"] |};
  {| keywords := [lit "save"; lit "store"; lit "persist"];
     expansion := lit "data persistence";
     technicalTerms := [lit "storage"; lit "database operation"; lit "state management"] |};
  {| keywords := [lit "load"; lit "fetch"; lit "get data"];
     expansion := lit "data fetching";
     technicalTerms := [lit "API call"; lit "async operation"; lit "data loading"] |};
  {| keywords := [lit "show"; lit "display"; lit "render"; lit "visible"];
     expansion := lit "UI rendering";
     technicalTerms := [lit "component rendering"; lit "visibility"; lit "display logic"] |};
  {| keywords := [lit "hide"; lit "invisible"; lit "remove"];
     expansion := lit "UI visibility";
     technicalTerms := [lit "conditional rendering"; lit "display state"; lit "DOM manipulation"] |};
  {| keywords := [lit "list"; lit "array"; lit "items"; lit "loop"];
     expansion := lit "list/array handling";
     technicalTerms := [lit "iteration"; lit "array methods"; lit "list rendering"] |};
  {| keywords := [lit "error"; lit "catch"; lit "fail"; lit "exception"];
     expansion := lit "error handling";
     technicalTerms := [lit "try-catch"; lit "error boundary"; lit "exception handling"] |};
  {| keywords := [lit "async"; lit "await"; lit "promise"; lit "wait"];
     expansion := lit "asynchronous operation";
     technicalTerms := [lit "Promise"; lit "async/await"; lit "asynchronous flow"] |};
  {| keywords := [lit "style"; lit "css"; lit "color"; lit "layout"];
     expansion := lit "styling";
     technicalTerms := [lit "CSS"; lit "styling"; lit "layout"] |};
  {| keywords := [lit "route"; lit "page"; lit "navigate"; lit "url"];
     expansion := lit "routing/navigation";
     technicalTerms := [lit "routing"; lit "navigation"; lit "URL handling"] |};
  {| keywords := [lit "state"; lit "update"; lit "change value"];
     expansion := lit "state management";
     technicalTerms := [lit "state update"; lit "reactivity"; lit "state management"] |};
  {| keywords := [lit "type"; lit "typescript"; lit "interface"];
     expansion := lit "type definition";
     technicalTerms := [lit "TypeScript"; lit "type safety"; lit "interface definition"] |}
].

(** Sentence structure improvements. *)
Definition word_plus : regex := RPlus (RClass isWordChar).
Definition space_plus : regex := RPlus (RClass isSpace).

(** [/(\w+)\s+not\s+work/gi] *)
Definition pat_not_work : RegExp :=
  {| pattern := RSeq (RGroup word_plus)
                 (RSeq space_plus (RSeq (rlit (lit "not"))
                   (RSeq space_plus (rlit (lit "work")))));
     global := true; ignoreCase := true; ngroups := 1 |}.

(** [/^make\s+(.+)/i] *)
Definition pat_make : RegExp :=
  {| pattern := RSeq RBol (RSeq (rlit (lit "make"))
                 (RSeq space_plus (RGroup (RPlus (RClass isDot)))));
     global := false; ignoreCase := true; ngroups := 1 |}.

(** [/^want\s+(.+)/i] *)
Definition pat_want : RegExp :=
  {| pattern := RSeq RBol (RSeq (rlit (lit "want"))
                 (RSeq space_plus (RGroup (RPlus (RClass isDot)))));
     global := false; ignoreCase := true; ngroups := 1 |}.

(** [/^how\s+(\w+)$/i] *)
Definition pat_how : RegExp :=
  {| pattern := RSeq RBol (RSeq (rlit (lit "how"))
                 (RSeq space_plus (RSeq (RGroup word_plus) REol)));
     global := false; ignoreCase := true; ngroups := 1 |}.

(** [/([a-zA-Z])$/i] *)
Definition pat_period : RegExp :=
  {| pattern := RSeq (RGroup (RClass isLetter)) REol;
     global := false; ignoreCase := true; ngroups := 1 |}.

Definition STRUCTURE_PATTERNS : list (RegExp * jsstring) := [
  (pat_not_work, lit "$1 is not working correctly");
  (pat_make, lit "Implement $1");
  (pat_want, lit "I need $1");
  (pat_how, lit "How does $1 work");
  (pat_period, lit "$1.")
].

(** ** detectIntent *)

(** The inner loop: the summed lengths of the keywords the lowered input
    includes. *)
Definition keywordScore (lowerInput : jsstring) (kws : list jsstring) : nat :=
  fold_left
    (fun score keyword =>
       if includes lowerInput keyword then score + length keyword else score)
    kws 0.

(** One round of the outer loop on [(bestMatch, highestScore)]. *)
Definition detectStep (lowerInput : jsstring)
           (st : TaskIntent * nat) (entry : TaskIntent * list jsstring)
  : TaskIntent * nat :=
  let score := keywordScore lowerInput (snd entry) in
  if snd st <? score then (fst entry, score) else st.

Definition detectIntent (input : jsstring) : TaskIntent :=
  let lowerInput := toLowerCase input in
  fst (fold_left (detectStep lowerInput) INTENT_KEYWORDS (IFix, 0)).

(** ** expandWords *)

(** [Array.prototype.sort] with the comparator
    [(a, b) => b[0].length - a[0].length]: a stable sort, longest key
    first. *)
Fixpoint insertByLength (x : jsstring * jsstring)
         (l : list (jsstring * jsstring)) : list (jsstring * jsstring) :=
  match l with
  | [] => [x]
  | y :: l' =>
    if length (fst y) <=? length (fst x) then x :: l
    else y :: insertByLength x l'
  end.

Definition sortByLength (l : list (jsstring * jsstring))
  : list (jsstring * jsstring) :=
  fold_right insertByLength [] l.

Definition sortedExpansions : list (jsstring * jsstring) :=
  sortByLength WORD_EXPANSIONS.

(** [new RegExp(`\\b${word}\\b`, 'gi')]; no key of the table holds a
    character that is special in a pattern. *)
Definition wordRegExp (word : jsstring) : RegExp :=
  {| pattern := RSeq RWordB (RSeq (rlit word) RWordB);
     global := true; ignoreCase := true; ngroups := 0 |}.

Definition expandWith (l : list (jsstring * jsstring)) (input : jsstring)
  : jsstring :=
  fold_left
    (fun result we => replaceRe (wordRegExp (fst we)) (snd we) result)
    l input.

Definition expandWords (input : jsstring) : jsstring :=
  expandWith sortedExpansions input.

(** ** addTechnicalTerms *)

(** [[...new Set(l)]]: the elements of [l] without repetition, in the
    order of their first occurrence. *)
Fixpoint uniqueFrom (seen l : list jsstring) : list jsstring :=
  match l with
  | [] => []
  | x :: l' =>
    if existsb (str_eqb x) seen then uniqueFrom seen l'
    else x :: uniqueFrom (x :: seen) l'
  end.

Definition unique (l : list jsstring) : list jsstring := uniqueFrom [] l.

Definition hasKeyword (lowerInput : jsstring) (m : RuleMapping) : bool :=
  existsb (fun kw => includes lowerInput kw) (keywords m).

(** The terms pushed by the loop over the mappings. *)
Definition pushedTerms (lowerInput : jsstring) (ms : list RuleMapping)
  : list jsstring :=
  flat_map
    (fun m => if hasKeyword lowerInput m then technicalTerms m else [])
    ms.

Record TermsResult : Type := {
  enhanced : jsstring;
  termsAdded : list jsstring
}.

Definition addTechnicalTerms (input : jsstring) : TermsResult :=
  let lowerInput := toLowerCase input in
  {| enhanced := input;
     termsAdded := unique (pushedTerms lowerInput TECHNICAL_ENHANCEMENTS) |}.

(** ** improveStructure *)

Definition applyPatterns (ps : list (RegExp * jsstring)) (input : jsstring)
  : jsstring :=
  fold_left (fun result pr => replaceRe (fst pr) (snd pr) result) ps input.

(** [result.charAt(0).toUpperCase() + result.slice(1)] *)
Definition capitalize (result : jsstring) : jsstring :=
  toUpperCase (charAt0 result) ++ slice1 result.

Definition improveStructure (input : jsstring) : jsstring :=
  capitalize (applyPatterns STRUCTURE_PATTERNS input).

(** ** formatContext *)

Definition nl : jsstring := [unitOf 10].
Definition fence : jsstring := lit "```".

Definition formatContext (request : PromptRequest) : jsstring :=
  let ctx := context request in
  let inc := includeContext request in
  let parts1 :=
    if file inc && truthyOpt (fileName ctx) then
      [lit "**File:** " ++ orEmpty (fileName ctx)]
      ++ (if truthyOpt (language ctx)
          then [lit "**Language:** " ++ orEmpty (language ctx)] else [])
    else [] in
  let parts2 :=
    if selection inc && truthyOpt (selectedCode ctx) then
      [nl ++ lit "**Code:**" ++ nl ++ fence
          ++ (if truthyOpt (language ctx) then orEmpty (language ctx) else [])
          ++ nl ++ orEmpty (selectedCode ctx) ++ nl ++ fence]
    else [] in
  let parts3 :=
    if project inc && truthyOpt (projectStructure ctx) then
      [nl ++ lit "**Project Structure:**" ++ nl
          ++ orEmpty (projectStructure ctx)]
    else [] in
  let parts4 :=
    if git inc && truthyOpt (gitStatus ctx) then
      [nl ++ lit "**Git Status:**" ++ nl ++ orEmpty (gitStatus ctx)]
    else [] in
  join nl (parts1 ++ parts2 ++ parts3 ++ parts4).

(** ** enhance *)

(** The chain of [replace] calls on the template text. *)
Definition fillTemplate (tpl enhanced contextStr : jsstring) : jsstring :=
  replaceStr (lit "{context}") contextStr
    (replaceStr (lit "{scenario}") enhanced
      (replaceStr (lit "{changes}") enhanced
        (replaceStr (lit "{goal}") enhanced
          (replaceStr (lit "{description}") enhanced
            (replaceStr (lit "{feature}") enhanced
              (replaceStr (lit "{error}") enhanced
                (replaceStr (lit "{issue}") enhanced tpl))))))).

(** The text built in step 5, from the templates found for the intent. *)
Definition buildPrompt (templates : list PromptTemplate)
           (enhanced contextStr : jsstring) : jsstring :=
  match templates with
  | tpl :: _ => fillTemplate (template tpl) enhanced contextStr
  | [] => enhanced ++ nl ++ nl ++ contextStr
  end.

(** The hint appended when terms were detected. *)
Definition relatedConcepts (terms : list jsstring) : jsstring :=
  match terms with
  | [] => []
  | _ :: _ =>
    nl ++ nl ++ lit "*Related concepts: " ++ join (lit ", ") terms ++ lit "*"
  end.

(** The preview, a truncated version of the prompt. *)
Definition makePreview (finalPrompt : jsstring) : jsstring :=
  if 200 <? length finalPrompt
  then substring 0 200 finalPrompt ++ lit "..."
  else finalPrompt.

(** [enhance] over a catalog lookup [lookup]; the program uses
    [getTemplatesByIntent]. *)
Definition enhanceWith (lookup : TaskIntent -> list PromptTemplate)
           (request : PromptRequest) : EnhancedPrompt :=
  let enhanced := improveStructure (expandWords (userInput request)) in
  let terms := termsAdded (addTechnicalTerms (userInput request)) in
  let templates := lookup (intent request) in
  let contextStr := formatContext request in
  let finalPrompt :=
    buildPrompt templates enhanced contextStr ++ relatedConcepts terms in
  {| prompt := finalPrompt;
     preview := makePreview finalPrompt;
     wasAiEnhanced := false |}.

Definition enhance (request : PromptRequest) : EnhancedPrompt :=
  enhanceWith getTemplatesByIntent request.

(** [quickEnhance], used by the context-menu actions. *)
Definition quickEnhance (simpleInput : jsstring) (i : TaskIntent)
           (ctx : PromptContext) : EnhancedPrompt :=
  enhance {| intent := i; userInput := simpleInput; context := ctx;
             includeContext := {| file := true; selection := true;
                                  project := false; git := false |} |}.

End RuleEngine.

(* ===================================================================== *)
(** * The host: configuration, clock, environment and network *)
(* ===================================================================== *)

(** The asynchronous code of the program runs its steps one after the
    other; it is embedded in a state-and-exception monad over the world it
    acts on.  The world records every network request and every probe of
    the environment, so that "no call was issued" is a statement about a
    trace. *)
Module Host.
Import JS Types.

(** The outcome of reading a field of a parsed response body at the call
    site: the read raises (the body is not JSON, or the path to the field
    goes through [undefined]), the field is absent, or it is there. *)
Inductive Extract (A : Type) : Type :=
| Raises
| Absent
| Present (a : A).
Arguments Raises {A}.
Arguments Absent {A}.
Arguments Present {A} a.

Record Response : Type := {
  ok : bool;
  status : nat;
  text : Extract jsstring;           (* the generated text *)
  models : Extract (list jsstring)   (* the names in [data.models] *)
}.

(** [fetch] rejects (network error, abort on time-out) or responds. *)
Inductive FetchOutcome : Type :=
| Rejects
| Responds (r : Response).

Inductive Request : Type :=
| GetTags (endpoint : jsstring) (abortAfter2s : bool)
| PostGenerate (endpoint model userInput : jsstring)
| PostAnthropic (apiKey userInput : jsstring)
| PostOpenAI (apiKey userInput : jsstring).

(** The requests that ask a backend for an enhanced prompt. *)
Definition isGeneration (q : Request) : bool :=
  match q with GetTags _ _ => false | _ => true end.

Inductive Probe : Type :=
| ProbeAppName
| ProbeExec (command : jsstring)
| ProbeExtension (extensionId : jsstring).

Inductive Error : Type :=
| FetchFailed
| TypeError
| ApiError (api : jsstring) (status : nat)
| UnknownProvider (provider : jsstring).

(** The settings under [betterPrompts]; an unset key is [None]. *)
Record Config : Type := {
  enhancementMode : option jsstring;
  manualProvider : option jsstring;
  apiKey : option jsstring;
  ollamaEndpoint : option jsstring;
  ollamaModel : option jsstring
}.

(** What the detector can observe. *)
Record Env : Type := {
  appName : option jsstring;
  execSucceeds : jsstring -> bool;
  extensionInstalled : jsstring -> bool
}.

(** The fields of the [LLMDetector] object. *)
Record DetectorState : Type := {
  cachedResult : option LLMDetectionResult;
  lastCheck : Z
}.

(** The fields of the [AIEnhancer] object. *)
Record EnhancerState : Type := {
  ollamaAvailable : option bool;
  ollamaModels : list jsstring
}.

Record World : Type := {
  config : Config;
  now : Z;                                 (* Date.now() *)
  env : Env;
  net : nat -> Request -> FetchOutcome;    (* the answer to the n-th call *)
  calls : list Request;                    (* the requests issued so far *)
  probes : list Probe;                     (* the probes made so far *)
  console : list Error;                    (* what console.error received *)
  detector : DetectorState;
  enhancer : EnhancerState
}.

Inductive Outcome (A : Type) : Type :=
| Returns (a : A)
| Throws (e : Error).
Arguments Returns {A} a.
Arguments Throws {A} e.

Definition M (A : Type) : Type := World -> Outcome A * World.

Definition ret {A} (a : A) : M A := fun w => (Returns a, w).

Definition throw {A} (e : Error) : M A := fun w => (Throws e, w).

Definition bind {A B} (m : M A) (k : A -> M B) : M B :=
  fun w =>
    match m w with
    | (Returns a, w') => k a w'
    | (Throws e, w') => (Throws e, w')
    end.

(** [try { m } catch (error) { h error }] *)
Definition tryCatch {A} (m : M A) (h : Error -> M A) : M A :=
  fun w =>
    match m w with
    | (Returns a, w') => (Returns a, w')
    | (Throws e, w') => h e w'
    end.

Definition get {A} (f : World -> A) : M A := fun w => (Returns (f w), w).

Definition modify (f : World -> World) : M unit := fun w => (Returns tt, f w).

Definition setCalls (l : list Request) (w : World) : World :=
  {| config := config w; now := now w; env := env w; net := net w;
     calls := l; probes := probes w; console := console w;
     detector := detector w; enhancer := enhancer w |}.

Definition setProbes (l : list Probe) (w : World) : World :=
  {| config := config w; now := now w; env := env w; net := net w;
     calls := calls w; probes := l; console := console w;
     detector := detector w; enhancer := enhancer w |}.

Definition setConsole (l : list Error) (w : World) : World :=
  {| config := config w; now := now w; env := env w; net := net w;
     calls := calls w; probes := probes w; console := l;
     detector := detector w; enhancer := enhancer w |}.

Definition setDetector (d : DetectorState) (w : World) : World :=
  {| config := config w; now := now w; env := env w; net := net w;
     calls := calls w; probes := probes w; console := console w;
     detector := d; enhancer := enhancer w |}.

Definition setEnhancer (e : EnhancerState) (w : World) : World :=
  {| config := config w; now := now w; env := env w; net := net w;
     calls := calls w; probes := probes w; console := console w;
     detector := detector w; enhancer := e |}.

(** [await fetch(...)]: the request is recorded; a rejection is thrown. *)
Definition fetch (q : Request) : M Response :=
  fun w =>
    let w' := setCalls (calls w ++ [q]) w in
    match net w (length (calls w)) q with
    | Rejects => (Throws FetchFailed, w')
    | Responds r => (Returns r, w')
    end.

Definition probe {A} (p : Probe) (f : Env -> A) : M A :=
  fun w => (Returns (f (env w)), setProbes (probes w ++ [p]) w).

(** [console.error(..., error)] *)
Definition consoleError (e : Error) : M unit :=
  modify (fun w => setConsole (console w ++ [e]) w).

(** [config.get(key, default)] *)
Definition configGet (key : Config -> option jsstring) (default : jsstring)
  : M jsstring :=
  get (fun w => match key (config w) with Some v => v | None => default end).

(** Reading a field of the body: [await response.json()] and the path. *)
Definition readField {A} (x : Extract A) : M (option A) :=
  match x with
  | Raises => throw TypeError
  | Absent => ret None
  | Present a => ret (Some a)
  end.

End Host.

Declare Scope host_scope.
Notation "x <- m ;; k" := (Host.bind m (fun x => k))
  (at level 61, m at next level, right associativity) : host_scope.
Notation "m ;;; k" := (Host.bind m (fun _ => k))
  (at level 61, right associativity) : host_scope.

(* ===================================================================== *)
(** * The assistant detector *)
(* ===================================================================== *)

Module LLMDetector.
Import JS Types Host.
Local Open Scope host_scope.
Local Open Scope Z_scope.

(** 1 minute cache *)
Definition CACHE_DURATION : Z := 60000.

Definition isCursorEditor : M bool :=
  probe ProbeAppName
    (fun e => includes (toLowerCase (orEmpty (appName e))) (lit "cursor")).

Definition execAsync (command : jsstring) : M bool :=
  probe (ProbeExec command) (fun e => execSucceeds e command).

Definition isClaudeCodeInstalled : M bool :=
  a <- execAsync (lit "claude --version") ;;
  if a then ret true
  else execAsync (lit "claude-code --version").

Definition getExtension (extensionId : jsstring) : M bool :=
  probe (ProbeExtension extensionId) (fun e => extensionInstalled e extensionId).

Definition isCopilotInstalled : M bool :=
  a <- getExtension (lit "GitHub.copilot") ;;
  b <- getExtension (lit "GitHub.copilot-chat") ;;
  ret (a || b)%bool.

Definition isContinueInstalled : M bool :=
  getExtension (lit "Continue.continue").

Definition isCodyInstalled : M bool :=
  getExtension (lit "sourcegraph.cody-ai").

Definition mkResult (p : LLMProvider) (a c : bool) (n : string)
  : LLMDetectionResult :=
  {| provider := p; available := a; canEnhance := c; displayName := lit n |}.

(** Priority order: Cursor > Claude Code > Continue > Cody > Copilot > None *)
Definition runDetection : M LLMDetectionResult :=
  c1 <- isCursorEditor ;;
  if c1 then ret (mkResult cursor true true "Cursor") else
  c2 <- isClaudeCodeInstalled ;;
  if c2 then ret (mkResult claude_code true true "Claude Code") else
  c3 <- isContinueInstalled ;;
  if c3 then ret (mkResult continue true true "Continue.dev") else
  c4 <- isCodyInstalled ;;
  if c4 then ret (mkResult cody true true "Sourcegraph Cody") else
  c5 <- isCopilotInstalled ;;
  if c5 then ret (mkResult copilot true false "GitHub Copilot")
  else ret (mkResult none false false "None detected").

(** The cached result when it is valid. *)
Definition cacheHit (forceRefresh : bool) (t : Z) (d : DetectorState)
  : option LLMDetectionResult :=
  if forceRefresh then None
  else match cachedResult d with
       | Some r => if t - lastCheck d <? CACHE_DURATION then Some r else None
       | None => None
       end.

Definition detect (forceRefresh : bool) : M LLMDetectionResult :=
  t <- get now ;;
  d <- get detector ;;
  match cacheHit forceRefresh t d with
  | Some r => ret r
  | None =>
    result <- runDetection ;;
    modify (setDetector {| cachedResult := Some result; lastCheck := t |}) ;;;
    ret result
  end.

Definition clearCache : M unit :=
  modify (setDetector {| cachedResult := None; lastCheck := 0 |}).

(** [if (c) { results.push(r) }] *)
Definition pushIf (c : bool) (r : LLMDetectionResult)
           (results : list LLMDetectionResult) : list LLMDetectionResult :=
  if c then results ++ [r] else results.

(** Get all available LLMs (for settings UI). *)
Definition getAllAvailable : M (list LLMDetectionResult) :=
  c1 <- isCursorEditor ;;
  let results := pushIf c1 (mkResult cursor true true "Cursor") [] in
  c2 <- isClaudeCodeInstalled ;;
  let results := pushIf c2 (mkResult claude_code true true "Claude Code") results in
  c3 <- isContinueInstalled ;;
  let results := pushIf c3 (mkResult continue true true "Continue.dev") results in
  c4 <- isCodyInstalled ;;
  let results := pushIf c4 (mkResult cody true true "Sourcegraph Cody") results in
  c5 <- isCopilotInstalled ;;
  let results := pushIf c5 (mkResult copilot true false "GitHub Copilot") results in
  (* Always add manual option *)
  ret (results ++ [mkResult manual true true "Manual API Configuration"]).

End LLMDetector.

(* ===================================================================== *)
(** * The AI enhancer *)
(* ===================================================================== *)

Module AIEnhancer.
Import JS Regex Types Host.
Local Open Scope host_scope.

Definition defaultEndpoint : jsstring := lit "http://localhost:11434".

(** The result object every path of the class builds. *)
Definition mkPrompt (text : jsstring) (ai : bool) : EnhancedPrompt :=
  {| prompt := text; preview := substring 0 200 text; wasAiEnhanced := ai |}.

(** Check if Ollama is running. *)
Definition isOllamaRunning (endpoint : jsstring) : M bool :=
  tryCatch
    (response <- fetch (GetTags endpoint true) ;; ret (ok response))
    (fun _ => ret false).

(** Get available Ollama models. *)
Definition getOllamaModels (endpoint : jsstring) : M (list jsstring) :=
  tryCatch
    (response <- fetch (GetTags endpoint false) ;;
     if negb (ok response) then ret []
     else
       names <- readField (models response) ;;
       ret (match names with Some l => l | None => [] end))
    (fun _ => ret []).

Definition clearCache : M unit :=
  modify (setEnhancer {| ollamaAvailable := None; ollamaModels := [] |}).

Definition setAvailable (b : bool) : M unit :=
  modify (fun w =>
    setEnhancer {| ollamaAvailable := Some b;
                   ollamaModels := ollamaModels (enhancer w) |} w).

Definition setModels (l : list jsstring) : M unit :=
  modify (fun w =>
    setEnhancer {| ollamaAvailable := ollamaAvailable (enhancer w);
                   ollamaModels := l |} w).

(** Check Ollama availability and cache result. *)
Definition checkOllama : M (bool * list jsstring) :=
  endpoint <- configGet ollamaEndpoint defaultEndpoint ;;
  running <- isOllamaRunning endpoint ;;
  setAvailable running ;;;
  (if running
   then (names <- getOllamaModels endpoint ;; setModels names)
   else ret tt) ;;;
  stored <- get (fun w => ollamaModels (enhancer w)) ;;
  ret (running, stored).

(** [/^(Enhanced prompt:|Here's the enhanced prompt:|Output:)\s*/i] *)
Definition pat_prefix : RegExp :=
  {| pattern :=
       RSeq RBol
         (RSeq (RGroup (RAlt (rlit (lit "Enhanced prompt:"))
                         (RAlt (rlit (lit "Here's the enhanced prompt:"))
                               (rlit (lit "Output:")))))
               (RStar (RClass isSpace)));
     global := false; ignoreCase := true; ngroups := 1 |}.

Definition isQuote (c : codeunit) : bool := (code c =? 34) || (code c =? 39).

(** [/^["']|["']$/g] *)
Definition pat_quotes : RegExp :=
  {| pattern := RAlt (RSeq RBol (RClass isQuote)) (RSeq (RClass isQuote) REol);
     global := true; ignoreCase := false; ngroups := 0 |}.

(** Clean up common artifacts from LLM responses. *)
Definition cleanUp (enhanced : jsstring) : jsstring :=
  trim (replaceRe pat_quotes [] (replaceRe pat_prefix [] enhanced)).

(** [x || userInput] for an optional text: [undefined] and [''] are falsy. *)
Definition orInput (x : option jsstring) (userInput : jsstring) : jsstring :=
  match x with
  | Some t => if truthy t then t else userInput
  | None => userInput
  end.

(** Call Ollama API (local, free). *)
Definition callOllamaAPI (userInput : jsstring) : M EnhancedPrompt :=
  endpoint <- configGet ollamaEndpoint defaultEndpoint ;;
  model <- configGet ollamaModel (lit "llama3.2") ;;
  tryCatch
    (response <- fetch (PostGenerate endpoint model userInput) ;;
     if negb (ok response)
     then throw (ApiError (lit "Ollama") (status response))
     else
       t <- readField (text response) ;;
       let enhanced := orInput (option_map trim t) userInput in
       ret (mkPrompt (cleanUp enhanced) true))
    (fun error => consoleError error ;;; throw error).

(** Call Anthropic API. *)
Definition callAnthropicAPI (userInput key : jsstring) : M EnhancedPrompt :=
  response <- fetch (PostAnthropic key userInput) ;;
  if negb (ok response)
  then throw (ApiError (lit "Anthropic") (status response))
  else
    t <- readField (text response) ;;
    ret (mkPrompt (orInput t userInput) true).

(** Call OpenAI API. *)
Definition callOpenAIAPI (userInput key : jsstring) : M EnhancedPrompt :=
  response <- fetch (PostOpenAI key userInput) ;;
  if negb (ok response)
  then throw (ApiError (lit "OpenAI") (status response))
  else
    t <- readField (text response) ;;
    ret (mkPrompt (orInput t userInput) true).

(** Enhance using manually configured API. *)
Definition enhanceWithManualAPI (userInput fallback : jsstring)
  : M EnhancedPrompt :=
  provider <- configGet manualProvider (lit "ollama") ;;
  if str_eqb provider (lit "ollama") then callOllamaAPI userInput
  else
    key <- configGet apiKey [] ;;
    if negb (truthy key) then ret (mkPrompt fallback false)
    else
      tryCatch
        (if str_eqb provider (lit "anthropic")
         then callAnthropicAPI userInput key
         else if str_eqb provider (lit "openai")
         then callOpenAIAPI userInput key
         else throw (UnknownProvider provider))
        (fun error =>
           consoleError error ;;; ret (mkPrompt fallback false)).

(** Enhance using detected provider. *)
Definition enhanceWithProvider (p : LLMProvider)
           (userInput fallback : jsstring) : M EnhancedPrompt :=
  match p with
  | cursor | claude_code | continue | cody =>
    enhanceWithManualAPI userInput fallback
  | _ => ret (mkPrompt fallback false)
  end.

(** The [try] block of [enhance]: [Some r] when it returns [r], [None]
    when control falls through to the code behind it. *)
Definition tryEnhance (mode userInput ruleEnhancedPrompt : jsstring)
  : M (option EnhancedPrompt) :=
  if str_eqb mode (lit "auto") then
    ollamaStatus <- checkOllama ;;
    if fst ollamaStatus && (0 <? length (snd ollamaStatus)) then
      r <- callOllamaAPI userInput ;; ret (Some r)
    else
      detection <- LLMDetector.detect false ;;
      if canEnhance detection then
        r <- enhanceWithProvider (provider detection)
               userInput ruleEnhancedPrompt ;;
        ret (Some r)
      else ret None
  else if str_eqb mode (lit "manual") then
    r <- enhanceWithManualAPI userInput ruleEnhancedPrompt ;; ret (Some r)
  else ret None.

(** Enhance prompt using available AI. *)
Definition enhance (userInput ruleEnhancedPrompt : jsstring)
  : M EnhancedPrompt :=
  mode <- configGet enhancementMode (lit "auto") ;;
  if str_eqb mode (lit "ruleOnly") then ret (mkPrompt ruleEnhancedPrompt false)
  else
    attempt <- tryCatch (tryEnhance mode userInput ruleEnhancedPrompt)
                 (fun error => consoleError error ;;; ret None) ;;
    match attempt with
    | Some r => ret r
    | None => ret (mkPrompt ruleEnhancedPrompt false)
    end.

(** The object [getStatus] returns; [statusModels] is [None] when the
    field [models] is left out. *)
Record Status : Type := {
  statusMode : jsstring;
  statusProvider : jsstring;
  statusAvailable : bool;
  statusModels : option (list jsstring)
}.

(** Get current enhancement status for UI. *)
Definition getStatus : M Status :=
  mode <- configGet enhancementMode (lit "auto") ;;
  provider <- configGet manualProvider (lit "ollama") ;;
  if str_eqb mode (lit "ruleOnly") then
    ret {| statusMode := mode; statusProvider := lit "Rule-based";
           statusAvailable := true; statusModels := None |}
  else if str_eqb mode (lit "manual") && str_eqb provider (lit "ollama") then
    ollamaStatus <- checkOllama ;;
    ret {| statusMode := mode; statusProvider := lit "Ollama";
           statusAvailable := fst ollamaStatus;
           statusModels := Some (snd ollamaStatus) |}
  else if str_eqb mode (lit "manual") then
    key <- configGet apiKey [] ;;
    ret {| statusMode := mode;
           statusProvider := if str_eqb provider (lit "anthropic")
                             then lit "Anthropic" else lit "OpenAI";
           statusAvailable := truthy key; statusModels := None |}
  else
    (* Auto mode *)
    ollamaStatus <- checkOllama ;;
    if fst ollamaStatus then
      ret {| statusMode := mode; statusProvider := lit "Ollama (auto)";
             statusAvailable := true;
             statusModels := Some (snd ollamaStatus) |}
    else
      detection <- LLMDetector.detect false ;;
      ret {| statusMode := mode; statusProvider := displayName detection;
             statusAvailable := canEnhance detection; statusModels := None |}.

End AIEnhancer.

(* ===================================================================== *)
(** * The context gatherer *)
(* ===================================================================== *)

Module ContextGatherer.
Import JS.



End ContextGatherer.

(* ===================================================================== *)
(** * The vocabulary of the statements *)
(* ===================================================================== *)

Import JS Regex Types Templates Host RuleEngine.

(** ** Texts *)

(** [s] holds no character of code [n]. *)
Definition lacks (n : nat) (s : jsstring) : bool :=
  forallb (fun c => negb (code c =? n)) s.




Definition closesWithBrace (p : jsstring) : bool :=
  match rev p with c :: _ => code c =? 125 | [] => false end.

(** [endsWith s suffix] *)
Definition endsWith (s suffix : jsstring) : bool :=
  startsWith (rev suffix) (rev s).

(** The first character of [s] is in the class [p]; the last one is. *)
Definition firstIs (p : codeunit -> bool) (s : jsstring) : bool :=
  match s with c :: _ => p c | [] => false end.

Definition lastIs (p : codeunit -> bool) (s : jsstring) : bool :=
  firstIs p (rev s).



(** ** What a pattern matches *)

(** [p] is a prefix of [t] under [sameChar]. *)
Fixpoint startsWithLit (icase : bool) (p t : jsstring) : bool :=
  match p, t with
  | [], _ => true
  | _ :: _, [] => false
  | ch :: p', a :: t' => sameChar icase a ch && startsWithLit icase p' t'
  end.

(** Iterations of [R], each one advancing. *)
Inductive iterated (R : nat -> caps -> nat -> caps -> Prop)
  : nat -> caps -> nat -> caps -> Prop :=
| iterated_stop (i : nat) (c : caps) : iterated R i c i c
| iterated_step (i : nat) (c : caps) (m : nat) (cm : caps) (j : nat) (c' : caps) :
    R i c m cm -> i < m -> iterated R m cm j c' -> iterated R i c j c'.

(** [den icase s r i c j c']: the pattern [r] can match the text of [s]
    between [i] and [j], turning the captures [c] into [c']. *)
Fixpoint den (icase : bool) (s : jsstring) (r : regex)
         (i : nat) (c : caps) (j : nat) (c' : caps) : Prop :=
  match r with
  | REmpty => j = i /\ c' = c
  | RChar ch =>
    (exists a, nth_error s i = Some a /\ sameChar icase a ch = true)
    /\ j = S i /\ c' = c
  | RClass p =>
    (exists a, nth_error s i = Some a /\ p a = true) /\ j = S i /\ c' = c
  | RSeq r1 r2 =>
    exists m cm, den icase s r1 i c m cm /\ den icase s r2 m cm j c'
  | RAlt r1 r2 => den icase s r1 i c j c' \/ den icase s r2 i c j c'
  | RStar r' => iterated (den icase s r') i c j c'
  | RPlus r' =>
    exists m cm, den icase s r' i c m cm /\ iterated (den icase s r') m cm j c'
  | RGroup r' => (exists c0, den icase s r' i c j c0) /\ c' = Some (i, j)
  | RBol => i = 0 /\ j = i /\ c' = c
  | REol => i = length s /\ j = i /\ c' = c
  | RWordB => atWordBoundary s i = true /\ j = i /\ c' = c
  end.

(** A matcher whose successes are described by [R]. *)
Definition soundMatcher (R : nat -> caps -> nat -> caps -> Prop)
           (m : nat -> caps -> cont -> option (nat * caps)) : Prop :=
  forall i c k x, m i c k = Some x ->
                  exists j c', R i c j c' /\ k j c' = Some x.

(** Two continuations that agree inside the text. *)
Definition agree (s : jsstring) (k k' : cont) : Prop :=
  forall j c, j <= length s -> k j c = k' j c.

(** ** Intents and their scores *)

(** The intents in the order of enumeration of [INTENT_KEYWORDS]. *)
Definition enumeration : list TaskIntent :=
  [IFix; IAdd; IChange; IExplain; ITest; IReview; IImprove; IDocument].

(** The position of an intent in the enumeration. *)
Definition rank (i : TaskIntent) : nat :=
  match i with
  | IFix => 0 | IAdd => 1 | IChange => 2 | IExplain => 3
  | ITest => 4 | IReview => 5 | IImprove => 6 | IDocument => 7
  end.

(** The keywords [INTENT_KEYWORDS] lists for an intent. *)
Definition keywordsOf (i : TaskIntent) : list jsstring :=
  match find (fun e => intent_eqb (fst e) i) INTENT_KEYWORDS with
  | Some e => snd e
  | None => []
  end.

(** The score of an intent as the specification words it: the summed
    lengths of the keywords of the intent that occur in the lowered
    input. *)
Definition intentScore (input : jsstring) (i : TaskIntent) : nat :=
  list_sum (map (@length codeunit)
                (filter (includes (toLowerCase input)) (keywordsOf i))).

(** ** Whole-word occurrences *)

(** A whole-word occurrence of [key] at position [i] of [s]: a word
    boundary, the key up to case, a word boundary. *)
Definition occursAt (key s : jsstring) (i : nat) : bool :=
  atWordBoundary s i
  && startsWithLit true key (skipn i s)
  && atWordBoundary s (i + length key).

(** One pass of [expandWords], told by positions: from [from] on, the
    leftmost whole-word occurrence is replaced and the pass goes on behind
    it; where there is none left, the rest of the text is kept. *)
Inductive wordPass (key expansion s : jsstring) : nat -> jsstring -> Prop :=
| wordPass_rest (from : nat) :
    (forall i, from <= i -> occursAt key s i = false) ->
    wordPass key expansion s from (skipn from s)
| wordPass_hit (from i : nat) (out : jsstring) :
    from <= i ->
    occursAt key s i = true ->
    (forall j, from <= j < i -> occursAt key s j = false) ->
    wordPass key expansion s (i + length key) out ->
    wordPass key expansion s from (substring from i s ++ expansion ++ out).

(** The order of the passes: a key is not shorter than the next one. *)
Definition longerFirst (a b : jsstring * jsstring) : Prop :=
  length (fst b) <= length (fst a).

(** ** Sentences *)



(** ** Templates, placeholders and prompts *)







(** The template [enhance] uses: the first of the catalog for the intent. *)
Definition chosenTemplate (i : TaskIntent) : option PromptTemplate :=
  hd_error (getTemplatesByIntent i).

(** The text of a template behind its last closing brace. *)
Fixpoint behindLastBrace (s : jsstring) : jsstring :=
  match s with
  | [] => []
  | c :: s' =>
    if lacks 125 s then s else behindLastBrace s'
  end.

(** The enhanced description of a request. *)
Definition descriptionOf (req : PromptRequest) : jsstring :=
  improveStructure (expandWords (userInput req)).

(** The hints, from the raw input of the request. *)
Definition hintsOf (req : PromptRequest) : list jsstring :=
  unique (pushedTerms (toLowerCase (userInput req)) TECHNICAL_ENHANCEMENTS).


(** The preview as the specification states it. *)
Definition previewBySpec (r : EnhancedPrompt) : Prop :=
  (200 < length (prompt r) ->
   length (preview r) = 203 /\ startsWith (preview r) (prompt r) = true)
  /\ (length (prompt r) <= 200 -> preview r = prompt r).



(** ** The host and the AI path *)

(** The configured mode, with its default. *)
Definition modeOf (w : World) : jsstring :=
  match enhancementMode (config w) with Some v => v | None => lit "auto" end.

(** The configured provider, key and endpoint, with their defaults. *)
Definition providerOf (w : World) : jsstring :=
  match manualProvider (config w) with Some v => v | None => lit "ollama" end.

Definition apiKeyOf (w : World) : jsstring :=
  match apiKey (config w) with Some v => v | None => [] end.

Definition endpointOf (w : World) : jsstring :=
  match ollamaEndpoint (config w) with
  | Some v => v
  | None => AIEnhancer.defaultEndpoint
  end.

(** The result that carries the rule-based prompt. *)
Definition fallbackResult (ruleBasedPrompt : jsstring) : EnhancedPrompt :=
  {| prompt := ruleBasedPrompt;
     preview := substring 0 200 ruleBasedPrompt;
     wasAiEnhanced := false |}.

(** What the program reads of the world and never writes. *)
Definition host (w : World)
  : Config * (nat -> Request -> FetchOutcome) * Z * Env :=
  (config w, net w, now w, env w).

(** A computation that leaves the host as it is. *)
Definition keeps {A : Type} (m : M A) : Prop :=
  forall w, host (snd (m w)) = host w.

(** A computation that never throws. *)
Definition total {A : Type} (m : M A) : Prop :=
  forall w, exists a, fst (m w) = Returns a.

(** Every result of a computation satisfies [P]. *)
Definition yields {A : Type} (P : A -> Prop) (m : M A) : Prop :=
  forall w, match fst (m w) with Returns a => P a | Throws _ => True end.

(** A call that fails: the transport rejects, the status is not 2xx, or
    the body cannot be read. *)
Definition failed (o : FetchOutcome) : Prop :=
  match o with
  | Rejects => True
  | Responds r => ok r = false \/ text r = Raises
  end.

(** Every request for an enhanced prompt fails, whenever it is sent. *)
Definition backendsFail (w : World) : Prop :=
  forall n q, isGeneration q = true -> failed (net w n q).

(** Every request to the generation endpoint of Ollama fails. *)
Definition ollamaFails (w : World) : Prop :=
  forall n e m u, failed (net w n (PostGenerate e m u)).

(** The manual provider cannot be called: it is not Ollama, and its key
    is missing or its identifier is unknown. *)
Definition cannotDispatch (w : World) : Prop :=
  providerOf w <> lit "ollama"
  /\ (apiKeyOf w = []
      \/ (providerOf w <> lit "anthropic" /\ providerOf w <> lit "openai")).

(** The failures of the AI path. *)
Definition aiPathFails (w : World) : Prop :=
  backendsFail w
  \/ ((modeOf w = lit "manual" \/ ollamaFails w) /\ cannotDispatch w).

(** An outcome that is the rule-based result whenever it is a result. *)
Definition degrades (f : jsstring) (o : Outcome EnhancedPrompt) : Prop :=
  match o with
  | Returns r => r = fallbackResult f
  | Throws _ => True
  end.

(** The preview of a result of the AI enhancer: the first 200 characters
    of its prompt. *)
Definition cutPreview (r : EnhancedPrompt) : Prop :=
  preview r = firstn 200 (prompt r).

(** The same, of the result the [try] block may return. *)
Definition cutPreviewOpt (o : option EnhancedPrompt) : Prop :=
  match o with Some r => cutPreview r | None => True end.

(** ** Requests and worlds for the examples *)

(** A request that carries an input and no context. *)
Definition noContext : PromptContext :=
  {| fileName := None; filePath := None; language := None;
     selectedCode := None; projectStructure := None; gitStatus := None;
     relatedFiles := None |}.

Definition noFlags : IncludeContext :=
  {| file := false; selection := false; project := false; git := false |}.

Definition request (i : TaskIntent) (input : string) : PromptRequest :=
  {| intent := i; userInput := lit input;
     context := noContext; includeContext := noFlags |}.


(** An environment with no assistant installed. *)
Definition quietEnv : Env :=
  {| appName := None;
     execSucceeds := fun _ => false;
     extensionInstalled := fun _ => false |}.

(** A key of the settings: given, or left to its default. *)
Definition given (s : string) : option string := Some s.
Definition unset : option string := None.

Definition settings (mode provider key : option string) : Config :=
  {| enhancementMode := option_map lit mode;
     manualProvider := option_map lit provider;
     apiKey := option_map lit key;
     ollamaEndpoint := None;
     ollamaModel := None |}.

(** A fresh world: nothing called, nothing probed, nothing cached. *)
Definition world (cfg : Config) (answers : nat -> Request -> FetchOutcome)
  : World :=
  {| config := cfg; now := 0%Z; env := quietEnv; net := answers;
     calls := []; probes := []; console := [];
     detector := {| cachedResult := None; lastCheck := 0%Z |};
     enhancer := {| ollamaAvailable := None; ollamaModels := [] |} |}.

(** Every call is rejected: nothing listens. *)
Definition unreachable : nat -> Request -> FetchOutcome := fun _ _ => Rejects.

(** Every call is answered with the status 500. *)
Definition serverError : nat -> Request -> FetchOutcome :=
  fun _ _ => Responds {| ok := false; status := 500;
                         text := Absent; models := Absent |}.

(** Every call is answered with a body that is not JSON. *)
Definition malformedBody : nat -> Request -> FetchOutcome :=
  fun _ _ => Responds {| ok := true; status := 200;
                         text := Raises; models := Raises |}.

(** A backend that answers every call with the text [t]. *)
Definition answering (t : string) : nat -> Request -> FetchOutcome :=
  fun _ _ => Responds {| ok := true; status := 200;
                         text := Present (lit t);
                         models := Present [lit "llama3.2"] |}.

(** ** Lookups and the context *)

(** The texts of a list are pairwise different. *)
Fixpoint distinct (l : list jsstring) : bool :=
  match l with
  | [] => true
  | x :: rest => negb (existsb (str_eqb x) rest) && distinct rest
  end.

(** The context as the flags let it through: a field whose flag is off
    is erased; the path of the file and the related files have no flag. *)
Definition visible (inc : IncludeContext) (ctx : PromptContext)
  : PromptContext :=
  {| fileName := if file inc then fileName ctx else None;
     filePath := None;
     language := if file inc || selection inc then language ctx else None;
     selectedCode := if selection inc then selectedCode ctx else None;
     projectStructure := if project inc then projectStructure ctx else None;
     gitStatus := if git inc then gitStatus ctx else None;
     relatedFiles := None |}.

(** Some part of the context is rendered: its flag is on and its field is
    a non-empty text. *)
Definition rendersSomething (req : PromptRequest) : bool :=
  let ctx := context req in
  let inc := includeContext req in
  (file inc && truthyOpt (fileName ctx))
  || (selection inc && truthyOpt (selectedCode ctx))
  || (project inc && truthyOpt (projectStructure ctx))
  || (git inc && truthyOpt (gitStatus ctx)).

(** ** The requests of a run *)

(** The configured model of Ollama, with its default. *)
Definition modelOf (w : World) : jsstring :=
  match ollamaModel (config w) with Some v => v | None => lit "llama3.2" end.

(** The requests issued between two worlds of a run. *)
Definition issued (w w' : World) : list Request :=
  skipn (length (calls w)) (calls w').

(** A request for the tags of the configured Ollama endpoint. *)
Definition tagsRequest (w : World) (q : Request) : Prop :=
  exists b, q = GetTags (endpointOf w) b.

(** The request [enhanceWithManualAPI] sends for the settings of the
    world: one request to the configured provider, or none. *)
Definition manualRequests (w : World) (userInput : jsstring) : list Request :=
  if str_eqb (providerOf w) (lit "ollama")
  then [PostGenerate (endpointOf w) (modelOf w) userInput]
  else if negb (truthy (apiKeyOf w)) then []
  else if str_eqb (providerOf w) (lit "anthropic")
  then [PostAnthropic (apiKeyOf w) userInput]
  else if str_eqb (providerOf w) (lit "openai")
  then [PostOpenAI (apiKeyOf w) userInput]
  else [].

(** A generation request as the settings address it: to the configured
    endpoint and model of Ollama, or to the cloud provider the settings
    name, with the configured key; it carries the user input. *)
Definition addressed (w : World) (userInput : jsstring) (q : Request) : Prop :=
  match q with
  | GetTags _ _ => False
  | PostGenerate e m u =>
    e = endpointOf w /\ m = modelOf w /\ u = userInput
  | PostAnthropic k u =>
    providerOf w = lit "anthropic" /\ k = apiKeyOf w /\ k <> []
    /\ u = userInput
  | PostOpenAI k u =>
    providerOf w = lit "openai" /\ k = apiKeyOf w /\ k <> []
    /\ u = userInput
  end.

(** What a run leaves alone besides the host: the probes and the two
    caches. *)
Definition aside (w : World) : list Probe * DetectorState * EnhancerState :=
  (probes w, detector w, enhancer w).

(** Ollama answers every request for its tags with the models [ms]. *)
Definition ollamaServes (w : World) (ms : list jsstring) : Prop :=
  forall n b, exists r,
    net w n (GetTags (endpointOf w) b) = Responds r
    /\ ok r = true /\ models r = Present ms.

(** The reachability probe sent now finds no Ollama: the request is
    rejected or answered with a status that is not 2xx. *)
Definition ollamaDown (w : World) : Prop :=
  match net w (length (calls w)) (GetTags (endpointOf w) true) with
  | Rejects => True
  | Responds r => ok r = false
  end.

(** An answer without text: the field is missing or empty. *)
Definition blank (r : Response) : Prop :=
  ok r = true /\ (text r = Absent \/ text r = Present []).

(** A text without white space at its ends. *)
Definition trimmed (s : jsstring) : Prop :=
  firstIs isSpace s = false /\ lastIs isSpace s = false.

(** A text the cleaning of the Ollama answer has nothing to do on: it is
    trimmed, no quote stands at its ends, and it opens with none of the
    three announcements. *)
Definition clean (s : jsstring) : Prop :=
  trimmed s
  /\ firstIs AIEnhancer.isQuote s = false
  /\ lastIs AIEnhancer.isQuote s = false
  /\ startsWithLit true (lit "Enhanced prompt:") s = false
  /\ startsWithLit true (lit "Here's the enhanced prompt:") s = false
  /\ startsWithLit true (lit "Output:") s = false.

(** ** The assistants of the environment *)

(** What the environment shows of an assistant: the name of the
    application, the commands that run, the extensions installed. *)
Definition installed (e : Env) (p : LLMProvider) : bool :=
  match p with
  | cursor => includes (toLowerCase (orEmpty (appName e))) (lit "cursor")
  | claude_code =>
    execSucceeds e (lit "claude --version")
    || execSucceeds e (lit "claude-code --version")
  | continue => extensionInstalled e (lit "Continue.continue")
  | cody => extensionInstalled e (lit "sourcegraph.cody-ai")
  | copilot =>
    extensionInstalled e (lit "GitHub.copilot")
    || extensionInstalled e (lit "GitHub.copilot-chat")
  | manual => true
  | none => false
  end.

(** The entry of an assistant in the results of the detector. *)
Definition entryOf (p : LLMProvider) : LLMDetectionResult :=
  match p with
  | cursor => LLMDetector.mkResult cursor true true "Cursor"
  | claude_code => LLMDetector.mkResult claude_code true true "Claude Code"
  | continue => LLMDetector.mkResult continue true true "Continue.dev"
  | cody => LLMDetector.mkResult cody true true "Sourcegraph Cody"
  | copilot => LLMDetector.mkResult copilot true false "GitHub Copilot"
  | manual => LLMDetector.mkResult manual true true "Manual API Configuration"
  | none => LLMDetector.mkResult none false false "None detected"
  end.

(** The assistants the detector looks for, in its order of priority. *)
Definition priority : list LLMProvider :=
  [cursor; claude_code; continue; cody; copilot].

(** The assistants found in an environment, in the order of priority. *)
Definition found (e : Env) : list LLMProvider :=
  filter (installed e) priority.

(** An environment in which the editor is Cursor. *)
Definition cursorEnv : Env :=
  {| appName := Some (lit "Cursor");
     execSucceeds := fun _ => true;
     extensionInstalled := fun _ => true |}.

(* ===================================================================== *)
(** * Strings *)
(* ===================================================================== *)

(** Facts on [startsWith], [indexOf], [includes], on texts that lack a
    character, and on the first and last characters of a text. *)


Lemma eqc_true (a b : codeunit) : eqc a b = true <-> a = b.
Proof.
  destruct a as [x| | |], b as [y| | |]; simpl; split; try congruence;
    try reflexivity.
  - intros H. apply Ascii.eqb_eq in H. now subst.
  - intros [= ->]. apply Ascii.eqb_refl.
Qed.

Lemma str_eqb_true (a b : jsstring) : str_eqb a b = true <-> a = b.
Proof.
  unfold str_eqb. destruct (list_eq_dec codeunit_dec a b); split; auto; discriminate.
Qed.

Lemma str_eqb_false (a b : jsstring) : str_eqb a b = false <-> a <> b.
Proof.
  unfold str_eqb. destruct (list_eq_dec codeunit_dec a b); split; auto;
    try discriminate; contradiction.
Qed.

Lemma startsWith_iff (p s : jsstring) :
  startsWith p s = true <-> exists r, s = p ++ r.
Proof.
  revert s; induction p as [|a p IH]; intros s; simpl.
  - split; eauto.
  - destruct s as [|b s].
    + split; [discriminate | intros [r Hr]; discriminate].
    + rewrite andb_true_iff, eqc_true, IH. split.
      * intros [-> [r ->]]. eauto.
      * intros [r Hr]. injection Hr as -> ->. eauto.
Qed.

Lemma indexOf_some (p s : jsstring) (i : nat) :
  indexOf p s = Some i ->
  startsWith p (skipn i s) = true
  /\ forall k, k < i -> startsWith p (skipn k s) = false.
Proof.
  revert i; induction s as [|c s IH]; intros i; simpl.
  - destruct (startsWith p []) eqn:E; [|discriminate].
    intros [= <-]. split; [exact E | intros; lia].
  - destruct (startsWith p (c :: s)) eqn:E.
    + intros [= <-]. split; [exact E | intros; lia].
    + destruct (indexOf p s) as [n|] eqn:En; [|discriminate].
      simpl. intros [= <-]. destruct (IH n eq_refl) as [H1 H2].
      split; [exact H1|]. intros [|k] Hk; simpl; [exact E | apply H2; lia].
Qed.

Lemma indexOf_none (p s : jsstring) :
  indexOf p s = None -> forall k, startsWith p (skipn k s) = false.
Proof.
  induction s as [|c s IH]; simpl.
  - destruct (startsWith p []) eqn:E; [discriminate|].
    intros _ [|k]; exact E.
  - destruct (startsWith p (c :: s)) eqn:E; [discriminate|].
    destruct (indexOf p s) eqn:En; [discriminate|].
    intros _ [|k]; simpl; [exact E | now apply IH].
Qed.

(** [includes] is the containment of a contiguous substring. *)
Lemma includes_iff (s p : jsstring) :
  includes s p = true <-> exists a b, s = a ++ p ++ b.
Proof.
  unfold includes. split.
  - destruct (indexOf p s) as [i|] eqn:E; [|discriminate]. intros _.
    apply indexOf_some in E. destruct E as [E _].
    apply startsWith_iff in E. destruct E as [r Hr].
    exists (firstn i s), r. rewrite <- Hr. now rewrite firstn_skipn.
  - intros (a & b & ->).
    destruct (indexOf p (a ++ p ++ b)) eqn:E; [reflexivity|].
    pose proof (indexOf_none _ _ E (length a)) as H.
    rewrite skipn_app, skipn_all, Nat.sub_diag in H. simpl in H.
    assert (startsWith p (p ++ b) = true) by (apply startsWith_iff; eauto).
    congruence.
Qed.


Lemma getSubstitution_plain (m b a : jsstring) (n : nat) (c t : jsstring) :
  lacks 36 t = true -> getSubstitution m b a n c t = t.
Proof.
  induction t as [|x t IH]; simpl; [reflexivity|].
  rewrite andb_true_iff. intros [Hx Ht]. rewrite Hx. now rewrite IH.
Qed.











Lemma lacks_nth (n : nat) (s : jsstring) (k : nat) (c : codeunit) :
  lacks n s = true -> nth_error s k = Some c -> code c <> n.
Proof.
  unfold lacks. rewrite forallb_forall. intros H Hk.
  apply nth_error_In in Hk. specialize (H _ Hk).
  apply negb_true_iff, Nat.eqb_neq in H. exact H.
Qed.

Lemma endsWith_app (a t suffix : jsstring) :
  length suffix <= length t -> endsWith (a ++ t) suffix = endsWith t suffix.
Proof.
  unfold endsWith. rewrite rev_app_distr. intros Hl.
  rewrite <- (length_rev suffix), <- (length_rev t) in Hl.
  generalize dependent (rev t). generalize (rev a). 
  induction (rev suffix) as [|x p IH]; intros ra rt Hl; [reflexivity|].
  destruct rt as [|y rt]; simpl in Hl; [lia|]. simpl.
  rewrite (IH ra rt) by lia. reflexivity.
Qed.










Lemma lastIs_snoc (p : codeunit -> bool) (y : jsstring) (a : codeunit) :
  lastIs p (y ++ [a]) = p a.
Proof. unfold lastIs. now rewrite rev_app_distr. Qed.










(* ===================================================================== *)
(** * Regular expressions *)
(* ===================================================================== *)

(** The search returns the leftmost match; a successful match follows its
    pattern; the rounds that bound the loops are never exhausted. *)

Section Literal.
Variable icase : bool.
Variable s : jsstring.

Lemma skipn_nth (i : nat) :
  skipn i s = match nth_error s i with
              | Some a => a :: skipn (S i) s
              | None => []
              end.
Proof.
  revert i. induction s as [|x t IH]; intros [|i]; simpl; try reflexivity.
  rewrite IH. destruct (nth_error t i); reflexivity.
Qed.

Lemma rmatch_rlit (p : jsstring) (i : nat) (c : caps) (k : cont) :
  rmatch icase s (rlit p) i c k
  = if startsWithLit icase p (skipn i s) then k (i + length p) c else None.
Proof.
  revert i. induction p as [|ch p IH]; intros i; simpl.
  - now rewrite Nat.add_0_r.
  - rewrite (skipn_nth i). destruct (nth_error s i) as [a|]; [|reflexivity].
    destruct (sameChar icase a ch); simpl; [|reflexivity].
    rewrite IH. now rewrite Nat.add_succ_r.
Qed.

(** The search returns the leftmost position that matches. *)
Lemma search_some (r : regex) (n i p j : nat) (c : caps) :
  search icase s r n i = Some (p, j, c) ->
  i <= p < i + n
  /\ matchAt icase s r p = Some (j, c)
  /\ forall q, i <= q < p -> matchAt icase s r q = None.
Proof.
  revert i. induction n as [|n IH]; intros i; simpl; [discriminate|].
  destruct (matchAt icase s r i) as [[j' c']|] eqn:E.
  - intros [= <- <- <-]. repeat split; try lia. exact E.
  - intros H. destruct (IH _ H) as (Hp & Hm & Hq). repeat split; try lia.
    + exact Hm.
    + intros q Hq'. destruct (Nat.eq_dec q i) as [->|]; [exact E|].
      apply Hq. lia.
Qed.

Lemma search_none (r : regex) (n i : nat) :
  search icase s r n i = None ->
  forall q, i <= q < i + n -> matchAt icase s r q = None.
Proof.
  revert i. induction n as [|n IH]; intros i; simpl; [intros; lia|].
  destruct (matchAt icase s r i) as [[j' c']|] eqn:E; [discriminate|].
  intros H q Hq. destruct (Nat.eq_dec q i) as [->|]; [exact E|].
  apply (IH _ H). lia.
Qed.

End Literal.

Lemma startsWithLit_length (icase : bool) (p t : jsstring) :
  startsWithLit icase p t = true -> length p <= length t.
Proof.
  revert t. induction p as [|ch p IH]; intros [|a t]; simpl; try lia;
    try discriminate.
  rewrite andb_true_iff. intros [_ H]. apply IH in H. lia.
Qed.



Section Soundness.
Variable icase : bool.
Variable s : jsstring.

Lemma star_sound (R : nat -> caps -> nat -> caps -> Prop)
      (m : nat -> caps -> cont -> option (nat * caps)) :
  soundMatcher R m ->
  forall fuel, soundMatcher (iterated R) (star m fuel).
Proof.
  intros Hm. induction fuel as [|fuel IH]; intros i c k x; simpl.
  - intros H. exists i, c. split; [constructor | exact H].
  - destruct (m i c (fun j c' => if i <? j then star m fuel j c' k else None))
      as [y|] eqn:E.
    + intros [= ->]. apply Hm in E. destruct E as (j & c' & HR & Hk).
      destruct (i <? j) eqn:Elt; [|discriminate].
      apply Nat.ltb_lt in Elt. apply IH in Hk.
      destruct Hk as (j2 & c2 & Hit & Hk2).
      exists j2, c2. split; [|exact Hk2]. econstructor; eassumption.
    + intros H. exists i, c. split; [constructor | exact H].
Qed.

(** A successful match follows the pattern. *)
Lemma rmatch_sound (r : regex) : soundMatcher (den icase s r) (rmatch icase s r).
Proof.
  induction r as [ | ch | p | r1 IH1 r2 IH2 | r1 IH1 r2 IH2 | r IH | r IH
                   | r IH | | | ]; intros i c k x; cbn [rmatch den].
  - intros H. exists i, c. auto.
  - destruct (nth_error s i) as [a|] eqn:E; [|discriminate].
    destruct (sameChar icase a ch) eqn:Ea; [|discriminate].
    intros H. exists (S i), c. repeat split; eauto.
  - destruct (nth_error s i) as [a|] eqn:E; [|discriminate].
    destruct (p a) eqn:Ea; [|discriminate].
    intros H. exists (S i), c. repeat split; eauto.
  - intros H. apply IH1 in H. destruct H as (m & cm & H1 & H).
    apply IH2 in H. destruct H as (j & c' & H2 & H).
    exists j, c'. split; [|exact H]. now exists m, cm.
  - destruct (rmatch icase s r1 i c k) as [y|] eqn:E.
    + intros [= ->]. apply IH1 in E. destruct E as (j & c' & H1 & H).
      exists j, c'. auto.
    + intros H. apply IH2 in H. destruct H as (j & c' & H2 & H).
      exists j, c'. auto.
  - intros H. apply (star_sound _ _ IH) in H. exact H.
  - intros H. apply IH in H. destruct H as (m & cm & H1 & H).
    apply (star_sound _ _ IH) in H. destruct H as (j & c' & H2 & H).
    exists j, c'. split; [|exact H]. now exists m, cm.
  - intros H. apply IH in H. destruct H as (j & c0 & H1 & H).
    exists j, (Some (i, j)). split; [|exact H]. split; eauto.
  - destruct (i =? 0) eqn:E; [|discriminate]. apply Nat.eqb_eq in E.
    intros H. exists i, c. auto.
  - destruct (i =? length s) eqn:E; [|discriminate]. apply Nat.eqb_eq in E.
    intros H. exists i, c. auto.
  - destruct (atWordBoundary s i) eqn:E; [|discriminate].
    intros H. exists i, c. auto.
Qed.

Lemma matchAt_sound (r : regex) (i j : nat) (c : caps) :
  matchAt icase s r i = Some (j, c) -> den icase s r i None j c.
Proof.
  unfold matchAt. intros H. apply rmatch_sound in H.
  destruct H as (j' & c' & D & [= -> ->]). exact D.
Qed.





End Soundness.



Section Rounds.
Variable icase : bool.
Variable s : jsstring.

Lemma star_agree (m : nat -> caps -> cont -> option (nat * caps)) :
  (forall i c k k', i <= length s -> agree s k k' -> m i c k = m i c k') ->
  forall fuel i c k k',
    i <= length s -> agree s k k' -> star m fuel i c k = star m fuel i c k'.
Proof.
  intros Hm. induction fuel as [|fuel IH]; intros i c k k' Hi Hk; simpl.
  - now apply Hk.
  - rewrite (Hm i c _ (fun j c' => if i <? j then star m fuel j c' k' else None)
               Hi).
    + now rewrite (Hk i c Hi).
    + intros j c' Hj. destruct (i <? j); [now apply IH | reflexivity].
Qed.

(** A matcher calls its continuation inside the text only. *)
Lemma rmatch_agree (r : regex) (i : nat) (c : caps) (k k' : cont) :
  i <= length s -> agree s k k' ->
  rmatch icase s r i c k = rmatch icase s r i c k'.
Proof.
  revert i c k k'.
  induction r as [ | ch | p | r1 IH1 r2 IH2 | r1 IH1 r2 IH2 | r IH | r IH
                   | r IH | | | ]; intros i c k k' Hi Hk; cbn [rmatch].
  - now apply Hk.
  - destruct (nth_error s i) as [a|] eqn:E; [|reflexivity].
    destruct (sameChar icase a ch); [|reflexivity].
    apply Hk. apply Nat.le_succ_l, nth_error_Some. congruence.
  - destruct (nth_error s i) as [a|] eqn:E; [|reflexivity].
    destruct (p a); [|reflexivity].
    apply Hk. apply Nat.le_succ_l, nth_error_Some. congruence.
  - apply IH1; [exact Hi|]. intros j c' Hj. now apply IH2.
  - rewrite (IH1 i c k k' Hi Hk), (IH2 i c k k' Hi Hk). reflexivity.
  - apply star_agree; auto.
  - apply IH; [exact Hi|]. intros j c' Hj. apply star_agree; auto.
  - apply IH; [exact Hi|]. intros j c' Hj. now apply Hk.
  - destruct (i =? 0); [now apply Hk | reflexivity].
  - destruct (i =? length s); [now apply Hk | reflexivity].
  - destruct (atWordBoundary s i); [now apply Hk | reflexivity].
Qed.

Lemma star_S (m : nat -> caps -> cont -> option (nat * caps))
      (fuel i : nat) (c : caps) (k : cont) :
  star m (S fuel) i c k
  = match m i c (fun j c' => if i <? j then star m fuel j c' k else None) with
    | Some x => Some x
    | None => k i c
    end.
Proof. reflexivity. Qed.

(** An iteration with more rounds than characters left does not use its
    last round: [S (length s)] rounds are as good as any larger number. *)
Lemma star_rounds (r : regex) (fuel i : nat) (c : caps) (k : cont) :
  i <= length s -> length s - i < fuel ->
  star (rmatch icase s r) (S fuel) i c k = star (rmatch icase s r) fuel i c k.
Proof.
  revert i c. induction fuel as [|fuel IH]; intros i c Hi Hf; [lia|].
  rewrite (star_S _ (S fuel)), (star_S _ fuel).
  rewrite (rmatch_agree r i c
             (fun j c' => if i <? j
                          then star (rmatch icase s r) (S fuel) j c' k else None)
             (fun j c' => if i <? j
                          then star (rmatch icase s r) fuel j c' k else None)
             Hi); [reflexivity|].
  intros j c' Hj. destruct (i <? j) eqn:E; [|reflexivity].
  apply Nat.ltb_lt in E. destruct fuel as [|fuel]; [lia|].
  apply IH; lia.
Qed.

(** A match never ends before it starts. *)
Lemma iterated_le (R : nat -> caps -> nat -> caps -> Prop)
      (i : nat) (c : caps) (j : nat) (c' : caps) :
  iterated R i c j c' -> i <= j.
Proof. induction 1; lia. Qed.

Lemma den_le (r : regex) (i : nat) (c : caps) (j : nat) (c' : caps) :
  den icase s r i c j c' -> i <= j.
Proof.
  revert i c j c'.
  induction r as [ | ch | p | r1 IH1 r2 IH2 | r1 IH1 r2 IH2 | r IH | r IH
                   | r IH | | | ]; intros i c j c'; cbn [den].
  - intros [-> _]. lia.
  - intros (_ & -> & _). lia.
  - intros (_ & -> & _). lia.
  - intros (m & cm & H1 & H2). apply IH1 in H1. apply IH2 in H2. lia.
  - intros [H | H]; [now apply IH1 in H | now apply IH2 in H].
  - apply iterated_le.
  - intros (m & cm & H1 & H2). apply IH in H1. apply iterated_le in H2. lia.
  - intros [(c0 & H) _]. now apply IH in H.
  - intros (_ & -> & _). lia.
  - intros (_ & -> & _). lia.
  - intros (_ & -> & _). lia.
Qed.

(** The loop of the global replacement advances with every match: with
    more rounds than positions left it does not use its last round. *)
Lemma replaceLoop_rounds (r : regex) (n : nat) (t : jsstring)
      (fuel last next : nat) :
  S (length s) - last < fuel ->
  replaceLoop icase s r n t (S fuel) last next
  = replaceLoop icase s r n t fuel last next.
Proof.
  revert last next. induction fuel as [|fuel IH]; intros last next Hf; [lia|].
  cbn [replaceLoop].
  destruct (exec icase s r last) as [[[i j] c]|] eqn:E; [|reflexivity].
  f_equal. f_equal.
  pose proof E as E'. unfold exec in E'. apply search_some in E'.
  destruct E' as (Hi & Hm & _). apply matchAt_sound, den_le in Hm.
  apply IH. destruct (j =? i) eqn:Ej.
  - apply Nat.eqb_eq in Ej. lia.
  - apply Nat.eqb_neq in Ej. lia.
Qed.

End Rounds.

(* ===================================================================== *)
(** * Intent detection *)
(* ===================================================================== *)

Lemma enumeration_order : map fst INTENT_KEYWORDS = enumeration.
Proof. reflexivity. Qed.

Lemma keywordScore_from (lower : jsstring) (kws : list jsstring) (a : nat) :
  fold_left
    (fun score keyword =>
       if includes lower keyword then score + length keyword else score)
    kws a
  = a + list_sum (map (@length codeunit) (filter (includes lower) kws)).
Proof.
  revert a; induction kws as [|k kws IH]; intros a; simpl.
  - lia.
  - rewrite IH. destruct (includes lower k); simpl; lia.
Qed.

Lemma keywordScore_sum (lower : jsstring) (kws : list jsstring) :
  keywordScore lower kws
  = list_sum (map (@length codeunit) (filter (includes lower) kws)).
Proof. unfold keywordScore. now rewrite keywordScore_from. Qed.

Section DetectLoop.
Variable lower : jsstring.

Let sc (e : TaskIntent * list jsstring) : nat := keywordScore lower (snd e).

(** The loop keeps the first entry that reaches the highest score above
    the initial one. *)
Lemma detect_loop (l : list (TaskIntent * list jsstring))
      (b : TaskIntent) (h : nat) :
  (fold_left (detectStep lower) l (b, h) = (b, h)
   /\ Forall (fun e => sc e <= h) l)
  \/ (exists l1 e l2,
        l = l1 ++ e :: l2
        /\ fold_left (detectStep lower) l (b, h) = (fst e, sc e)
        /\ h < sc e
        /\ Forall (fun e' => sc e' < sc e) l1
        /\ Forall (fun e' => sc e' <= sc e) l2).
Proof.
  revert b h; induction l as [|e l IH]; intros b h; simpl.
  - left; split; [reflexivity | constructor].
  - assert (Hs : detectStep lower (b, h) e
                 = if h <? sc e then (fst e, sc e) else (b, h)) by reflexivity.
    rewrite Hs; clear Hs.
    destruct (h <? sc e) eqn:E.
    + apply Nat.ltb_lt in E. right.
      destruct (IH (fst e) (sc e)) as [[Hr Hall] | (l1 & e' & l2 & Hl & Hr & Hlt & H1 & H2)].
      * exists [], e, l. simpl. repeat split; auto.
      * exists (e :: l1), e', l2. subst l. simpl.
        repeat split; auto; try lia.
    + apply Nat.ltb_ge in E.
      destruct (IH b h) as [[Hr Hall] | (l1 & e' & l2 & Hl & Hr & Hlt & H1 & H2)].
      * left; split; auto.
      * right. exists (e :: l1), e', l2. subst l. simpl.
        repeat split; auto.
        constructor; auto. lia.
Qed.

End DetectLoop.

Lemma keywordsOf_entry (e : TaskIntent * list jsstring) :
  In e INTENT_KEYWORDS -> keywordsOf (fst e) = snd e.
Proof.
  unfold INTENT_KEYWORDS. simpl.
  intros H. repeat (destruct H as [H | H]; [subst e; reflexivity|]). destruct H.
Qed.

Lemma entry_of_intent (j : TaskIntent) : In (j, keywordsOf j) INTENT_KEYWORDS.
Proof.
  destruct j; unfold keywordsOf; simpl; tauto.
Qed.

Lemma rank_prefix (pre : list TaskIntent) (x : TaskIntent) (post : list TaskIntent) :
  pre ++ x :: post = enumeration ->
  forall j, rank j < rank x -> In j pre.
Proof.
  unfold enumeration. intros H.
  do 8 (destruct pre as [|? pre];
        [ simpl in H; injection H as Hx _; subst x;
          intros j; destruct j; simpl; intros; try lia; tauto
        | simpl in H; injection H as Ha H; subst ]).
  destruct pre; discriminate.
Qed.

(** C2.  [detectIntent] lower-cases the input and scores each intent by
    the summed lengths of its keywords that occur in the lowered input.
    The intent it returns is one of the eight, scores at least as much as
    every other and strictly more than every intent enumerated before it
    (the highest score wins, a tie keeps the first); with no keyword at
    all it is the default [fix].  Being a function, it is total and
    deterministic. *)
Theorem detectIntent_spec (input : jsstring) :
  let w := detectIntent input in
  In w enumeration
  /\ (forall j, intentScore input j <= intentScore input w)
  /\ (forall j, rank j < rank w -> intentScore input j < intentScore input w)
  /\ ((forall j, intentScore input j = 0) -> w = IFix).
Proof.
  intros w.
  assert (Hsc : forall j, intentScore input j
                 = keywordScore (toLowerCase input) (keywordsOf j)).
  { intros j. unfold intentScore. now rewrite keywordScore_sum. }
  assert (Hmain : In w enumeration
    /\ (forall j, intentScore input j <= intentScore input w)
    /\ (forall j, rank j < rank w -> intentScore input j < intentScore input w)).
  { subst w. unfold detectIntent.
    destruct (detect_loop (toLowerCase input) INTENT_KEYWORDS IFix 0)
      as [[Hr Hall] | (l1 & e & l2 & Hl & Hr & Hlt & H1 & H2)].
    - rewrite Hr. simpl fst. split; [simpl; auto|]. split.
      + intros j. rewrite !Hsc.
        rewrite Forall_forall in Hall.
        specialize (Hall _ (entry_of_intent j)). simpl in Hall. lia.
      + intros j Hj. simpl in Hj. lia.
    - rewrite Hr. simpl fst.
      assert (He : In e INTENT_KEYWORDS) by (rewrite Hl; apply in_elt).
      assert (Hw : keywordScore (toLowerCase input) (keywordsOf (fst e))
                   = keywordScore (toLowerCase input) (snd e))
        by (now rewrite (keywordsOf_entry e He)).
      rewrite Forall_forall in H1, H2.
      split; [|split].
      + rewrite <- enumeration_order. now apply in_map.
      + intros j. rewrite !Hsc, Hw.
        pose proof (entry_of_intent j) as Hj. rewrite Hl in Hj.
        apply in_app_or in Hj. destruct Hj as [Hj | [Hj | Hj]].
        * specialize (H1 _ Hj). simpl in H1. lia.
        * subst e. simpl. lia.
        * specialize (H2 _ Hj). simpl in H2. lia.
      + intros j Hj. rewrite !Hsc, Hw.
        assert (Hpre : In j (map fst l1)).
        { apply (rank_prefix (map fst l1) (fst e) (map fst l2)); auto.
          rewrite <- enumeration_order, Hl, map_app. reflexivity. }
        apply in_map_iff in Hpre. destruct Hpre as ([j' kws] & Hj' & Hin).
        simpl in Hj'. subst j'.
        assert (Hk : keywordsOf j = kws).
        { apply (keywordsOf_entry (j, kws)). rewrite Hl. apply in_or_app. now left. }
        specialize (H1 _ Hin). simpl in H1. rewrite Hk. exact H1. }
  destruct Hmain as (Ha & Hb & Hc). repeat split; auto.
  intros Hz. destruct w eqn:Ew; auto; exfalso;
    (assert (Hlt : rank IFix < rank w) by (rewrite Ew; simpl; lia));
    rewrite Ew in Hlt; specialize (Hc _ Hlt); rewrite !Hz in Hc; lia.
Qed.

(** The examples of the specification. *)
Example detectIntent_examples :
  detectIntent (lit "fix the login bug") = IFix
  /\ detectIntent (lit "add a submit button") = IAdd
  /\ detectIntent (lit "Explain WHY this fails") = IExplain
  /\ detectIntent (lit "xyz") = IFix.
Proof. repeat split; vm_compute; reflexivity. Qed.

(* ===================================================================== *)
(** * Word expansion *)
(* ===================================================================== *)

(** A match attempt of the pattern of a key is a test for a whole-word
    occurrence. *)
Lemma matchAt_word (key s : jsstring) (i : nat) :
  matchAt true s (pattern (wordRegExp key)) i
  = if occursAt key s i then Some (i + length key, None) else None.
Proof.
  unfold matchAt, wordRegExp, pattern, occursAt. simpl rmatch.
  destruct (atWordBoundary s i); simpl; [|reflexivity].
  rewrite rmatch_rlit.
  destruct (startsWithLit true key (skipn i s)); simpl; [|reflexivity].
  destruct (atWordBoundary s (i + length key)); reflexivity.
Qed.

Lemma occursAt_range (key s : jsstring) (i : nat) :
  occursAt key s i = true -> key <> [] -> i + length key <= length s.
Proof.
  unfold occursAt. rewrite !andb_true_iff. intros [[_ H] _] Hk.
  apply startsWithLit_length in H.
  destruct (le_lt_dec i (length s)) as [Hi|Hi].
  - rewrite length_skipn in H. lia.
  - rewrite skipn_all2 in H by lia. destruct key; [congruence|simpl in H; lia].
Qed.

(** The loop of the global replacement realises the pass. *)
Lemma replaceLoop_word (key expansion s : jsstring) :
  key <> [] -> lacks 36 expansion = true ->
  forall fuel from,
    S (length s) - from < fuel ->
    wordPass key expansion s from
      (replaceLoop true s (pattern (wordRegExp key)) 0 expansion fuel from from).
Proof.
  intros Hk He. induction fuel as [|fuel IH]; intros from Hf; [lia|].
  cbn [replaceLoop]. unfold exec.
  destruct (search true s (pattern (wordRegExp key)) (S (length s) - from) from)
    as [[[i j] c]|] eqn:E.
  - apply search_some in E. destruct E as (Hi & Hm & Hq).
    rewrite matchAt_word in Hm.
    destruct (occursAt key s i) eqn:Ho; [|discriminate].
    injection Hm as <- <-.
    assert (Hlen : 1 <= length key) by (destruct key; [congruence|simpl; lia]).
    assert (Hj : (i + length key =? i) = false) by (apply Nat.eqb_neq; lia).
    rewrite Hj. unfold substitute.
    rewrite (getSubstitution_plain _ _ _ _ _ _ He).
    apply wordPass_hit; try lia; try assumption.
    + intros q Hq'. specialize (Hq q Hq'). rewrite matchAt_word in Hq.
      destruct (occursAt key s q); [discriminate|reflexivity].
    + apply IH. lia.
  - apply wordPass_rest. intros i Hi.
    destruct (le_lt_dec i (length s)) as [Hl|Hl].
    + pose proof (search_none true s _ _ _ E i) as Hn.
      rewrite matchAt_word in Hn.
      destruct (occursAt key s i); [|reflexivity].
      assert (from <= i < from + (S (length s) - from)) by lia.
      specialize (Hn H). discriminate.
    + destruct (occursAt key s i) eqn:Ho; [|reflexivity].
      pose proof (occursAt_range key s i Ho Hk). lia.
Qed.

(** One pass of [expandWords] replaces the whole-word occurrences of its
    key, from left to right, and nothing else. *)
Lemma replaceRe_word (key expansion s : jsstring) :
  key <> [] -> lacks 36 expansion = true ->
  wordPass key expansion s 0 (replaceRe (wordRegExp key) expansion s).
Proof.
  intros Hk He. unfold replaceRe, replaceAll.
  change (global (wordRegExp key)) with true.
  change (ignoreCase (wordRegExp key)) with true.
  change (ngroups (wordRegExp key)) with 0. cbv iota.
  apply replaceLoop_word; auto.
Qed.

Lemma wordPass_unchanged (key expansion s out : jsstring) :
  (forall i, occursAt key s i = false) ->
  wordPass key expansion s 0 out -> out = s.
Proof.
  intros Hn H. inversion H; subst.
  - reflexivity.
  - rewrite Hn in *. discriminate.
Qed.

Lemma insertByLength_perm (x : jsstring * jsstring)
      (l : list (jsstring * jsstring)) :
  Permutation (insertByLength x l) (x :: l).
Proof.
  induction l as [|y l IH]; simpl; [reflexivity|].
  destruct (length (fst y) <=? length (fst x)); [reflexivity|].
  rewrite IH. apply perm_swap.
Qed.

Lemma sortByLength_perm (l : list (jsstring * jsstring)) :
  Permutation (sortByLength l) l.
Proof.
  induction l as [|x l IH]; simpl; [reflexivity|].
  rewrite insertByLength_perm. now constructor.
Qed.

Lemma insertByLength_sorted (x : jsstring * jsstring)
      (l : list (jsstring * jsstring)) :
  Sorted longerFirst l -> Sorted longerFirst (insertByLength x l).
Proof.
  induction 1 as [|y l Hs IH Hh]; simpl.
  - repeat constructor.
  - destruct (length (fst y) <=? length (fst x)) eqn:E.
    + apply Nat.leb_le in E. repeat constructor; assumption.
    + apply Nat.leb_gt in E. constructor; [exact IH|].
      destruct l as [|z l]; simpl.
      * constructor. unfold longerFirst. lia.
      * inversion Hh; subst.
        destruct (length (fst z) <=? length (fst x));
          constructor; unfold longerFirst in *; lia.
Qed.

Lemma sortByLength_sorted (l : list (jsstring * jsstring)) :
  Sorted longerFirst (sortByLength l).
Proof.
  induction l as [|x l IH]; simpl; [constructor|].
  now apply insertByLength_sorted.
Qed.

(** The keys of the table are not empty and the expansions hold no
    dollar. *)
Lemma expansions_wellformed (key expansion : jsstring) :
  In (key, expansion) WORD_EXPANSIONS ->
  key <> [] /\ lacks 36 expansion = true.
Proof.
  intros H.
  assert (Hall : forallb (fun we => negb (str_eqb (fst we) [])
                                    && lacks 36 (snd we))
                         WORD_EXPANSIONS = true) by (vm_compute; reflexivity).
  rewrite forallb_forall in Hall. specialize (Hall _ H). simpl in Hall.
  apply andb_true_iff in Hall. destruct Hall as [Hk He]. split; [|exact He].
  intros ->. discriminate.
Qed.

Lemma expandWith_unchanged (l : list (jsstring * jsstring)) (s : jsstring) :
  (forall key expansion, In (key, expansion) l ->
     key <> [] /\ lacks 36 expansion = true) ->
  (forall key expansion i, In (key, expansion) l -> occursAt key s i = false) ->
  expandWith l s = s.
Proof.
  unfold expandWith. induction l as [|[key e] l IH]; intros Hw Hn; simpl;
    [reflexivity|].
  destruct (Hw key e (or_introl eq_refl)) as [Hk He].
  rewrite (wordPass_unchanged key e s _
             (fun i => Hn key e i (or_introl eq_refl))
             (replaceRe_word key e s Hk He)).
  apply IH.
  - intros k x Hin. apply Hw. now right.
  - intros k x i Hin. apply (Hn k x i). now right.
Qed.

(** C7.  [expandWords] runs one pass for each entry of the table, the
    longest key first (a stable sort of the table by decreasing key
    length); a pass replaces the whole-word, case-insensitive occurrences
    of its key, from left to right, and nothing else; a text with no
    whole-word occurrence of any key is returned as it is. *)
Theorem expandWords_whole_words :
  (forall input, expandWords input = expandWith sortedExpansions input)
  /\ Permutation sortedExpansions WORD_EXPANSIONS
  /\ Sorted longerFirst sortedExpansions
  /\ map fst sortedExpansions
     = map lit ["doesn't work"; "doesnt work"; "not work"; "broken"; "config";
                "clean"; "messy"; "param"; "props"; "slow"; "fast"; "work";
                "good"; "ugly"; "make"; "want"; "need"; "func"; "bool"; "auth";
                "fix"; "bad"; "btn"; "var"; "arr"; "obj"; "str"; "num"; "api";
                "err"; "msg"; "req"; "res"; "arg"; "do"; "db"]%string
  /\ (forall key expansion s,
        In (key, expansion) WORD_EXPANSIONS ->
        wordPass key expansion s 0 (replaceRe (wordRegExp key) expansion s))
  /\ (forall s,
        (forall key expansion i,
            In (key, expansion) WORD_EXPANSIONS -> occursAt key s i = false) ->
        expandWords s = s)
  /\ expandWords (lit "btn") = lit "button"
  /\ expandWords (lit "subtle") = lit "subtle"
  /\ expandWords (lit "Fix the BTN") = lit "fix and debug the button"
  /\ expandWords (lit "it does not work") = lit "it does is not functioning as expected".
Proof.
  split; [reflexivity|].
  split; [apply sortByLength_perm|].
  split; [apply sortByLength_sorted|].
  split; [vm_compute; reflexivity|].
  split.
  { intros key e s H. destruct (expansions_wellformed key e H).
    now apply replaceRe_word. }
  split.
  { intros s Hn. unfold expandWords. apply expandWith_unchanged.
    - intros key e Hin. apply expansions_wellformed.
      now apply (Permutation_in _ (sortByLength_perm WORD_EXPANSIONS)).
    - intros key e i Hin. apply (Hn key e i).
      now apply (Permutation_in _ (sortByLength_perm WORD_EXPANSIONS)). }
  repeat split; vm_compute; reflexivity.
Qed.

(** [subtle] holds no whole-word occurrence of a key, although it holds
    the letters of [btn] in that order. *)
Example subtle_has_no_key :
  forallb (fun we => forallb (fun i => negb (occursAt (fst we) (lit "subtle") i))
                             (seq 0 7))
          WORD_EXPANSIONS = true.
Proof. vm_compute; reflexivity. Qed.

(* ===================================================================== *)
(** * Sentence structure *)
(* ===================================================================== *)









Lemma lastIs_nth (p : codeunit -> bool) (s : jsstring) (i : nat) (a : codeunit) :
  nth_error s i = Some a -> S i = length s -> lastIs p s = p a.
Proof.
  intros Hn Hl.
  assert (E : s = firstn i s ++ [a]).
  { rewrite <- (firstn_skipn i s) at 1. f_equal.
    rewrite (skipn_nth s i), Hn. f_equal. apply skipn_all2. lia. }
  rewrite E. apply lastIs_snoc.
Qed.


















(* ===================================================================== *)
(** * The templates and their placeholders *)
(* ===================================================================== *)

Lemma intent_eqb_true (a b : TaskIntent) : intent_eqb a b = true <-> a = b.
Proof. destruct a, b; simpl; split; congruence. Qed.



Lemma chosenTemplate_total (i : TaskIntent) :
  exists tpl, chosenTemplate i = Some tpl.
Proof. destruct i; eexists; reflexivity. Qed.







Lemma occurrence_before_tail (pat a tail : jsstring) (i : nat) :
  closesWithBrace pat = true -> lacks 125 tail = true ->
  startsWith pat (skipn i (a ++ tail)) = true ->
  i + length pat <= length a.
Proof.
  unfold closesWithBrace. intros Hp Ht Hs.
  destruct (rev pat) as [|c q] eqn:Er; [discriminate|].
  apply Nat.eqb_eq in Hp.
  assert (Hpat : pat = rev q ++ [c]).
  { rewrite <- (rev_involutive pat), Er. reflexivity. }
  apply startsWith_iff in Hs. destruct Hs as [r Hr].
  destruct (le_lt_dec (i + length pat) (length a)) as [|Hlt]; [assumption|].
  exfalso.
  assert (Hn : nth_error (a ++ tail) (i + length (rev q)) = Some c).
  { rewrite <- (firstn_skipn i (a ++ tail)) at 1. rewrite Hr.
    assert (Hi : i <= length (a ++ tail)).
    { destruct (le_lt_dec i (length (a ++ tail))); [assumption|].
      rewrite skipn_all2 in Hr by lia. subst pat.
      destruct (rev q); discriminate. }
    rewrite nth_error_app2; rewrite firstn_length_le by assumption; [|lia].
    replace (i + length (rev q) - i) with (length (rev q)) by lia.
    subst pat. rewrite <- app_assoc. rewrite nth_error_app2 by lia.
    rewrite Nat.sub_diag. reflexivity. }
  subst pat. rewrite length_app in Hlt. simpl in Hlt.
  rewrite nth_error_app2 in Hn by lia.
  exact (lacks_nth 125 tail _ c Ht Hn Hp).
Qed.

Lemma replaceStr_keeps_tail (pat repl a tail : jsstring) :
  closesWithBrace pat = true -> lacks 125 tail = true ->
  exists a', replaceStr pat repl (a ++ tail) = a' ++ tail.
Proof.
  intros Hp Ht. unfold replaceStr.
  destruct (indexOf pat (a ++ tail)) as [i|] eqn:E; [|now exists a].
  apply indexOf_some in E. destruct E as [E _].
  pose proof (occurrence_before_tail pat a tail i Hp Ht E) as Hle.
  rewrite (skipn_app (i + length pat)).
  replace (i + length pat - length a) with 0 by lia. simpl skipn.
  eexists. rewrite !app_assoc. reflexivity.
Qed.

Lemma fillTemplate_keeps_tail (a tail e c : jsstring) :
  lacks 125 tail = true ->
  exists a', fillTemplate (a ++ tail) e c = a' ++ tail.
Proof.
  intros Ht. unfold fillTemplate.
  destruct (replaceStr_keeps_tail (lit "{issue}") e a tail eq_refl Ht) as [a1 ->].
  destruct (replaceStr_keeps_tail (lit "{error}") e a1 tail eq_refl Ht) as [a2 ->].
  destruct (replaceStr_keeps_tail (lit "{feature}") e a2 tail eq_refl Ht) as [a3 ->].
  destruct (replaceStr_keeps_tail (lit "{description}") e a3 tail eq_refl Ht) as [a4 ->].
  destruct (replaceStr_keeps_tail (lit "{goal}") e a4 tail eq_refl Ht) as [a5 ->].
  destruct (replaceStr_keeps_tail (lit "{changes}") e a5 tail eq_refl Ht) as [a6 ->].
  destruct (replaceStr_keeps_tail (lit "{scenario}") e a6 tail eq_refl Ht) as [a7 ->].
  exact (replaceStr_keeps_tail (lit "{context}") c a7 tail eq_refl Ht).
Qed.

Lemma behindLastBrace_split (s : jsstring) :
  exists a, s = a ++ behindLastBrace s.
Proof.
  induction s as [|c s [a Ha]].
  - now exists [].
  - unfold behindLastBrace; fold behindLastBrace.
    destruct (lacks 125 (c :: s)); [now exists [] |].
    exists (c :: a). simpl. now rewrite <- Ha.
Qed.

Lemma behindLastBrace_lacks (s : jsstring) : lacks 125 (behindLastBrace s) = true.
Proof.
  induction s as [|c s IH]; [reflexivity|].
  unfold behindLastBrace; fold behindLastBrace.
  destruct (lacks 125 (c :: s)) eqn:E; assumption.
Qed.

(** The filled template ends as the template does. *)
Lemma fillTemplate_end (tpl e c suffix : jsstring) :
  length suffix <= length (behindLastBrace tpl) ->
  endsWith (fillTemplate tpl e c) suffix
  = endsWith (behindLastBrace tpl) suffix.
Proof.
  intros Hl. destruct (behindLastBrace_split tpl) as [a Ha].
  destruct (fillTemplate_keeps_tail a (behindLastBrace tpl) e c
              (behindLastBrace_lacks tpl)) as [a' Ha'].
  rewrite Ha at 1. rewrite Ha'. now apply endsWith_app.
Qed.

Lemma catalog_body_end (i : TaskIntent) (e c : jsstring) :
  endsWith (buildPrompt (getTemplatesByIntent i) e c) (lit "*") = false.
Proof.
  destruct i; unfold buildPrompt;
    match goal with
    | |- context [getTemplatesByIntent ?j] =>
      let l := eval vm_compute in (getTemplatesByIntent j) in
      change (getTemplatesByIntent j) with l
    end; cbv iota beta; unfold template;
    rewrite fillTemplate_end by (vm_compute; lia); reflexivity.
Qed.

(* ===================================================================== *)
(** * Technical terms *)
(* ===================================================================== *)

Lemma existsb_str (x : jsstring) (l : list jsstring) :
  existsb (str_eqb x) l = true <-> In x l.
Proof.
  rewrite existsb_exists. split.
  - intros (y & Hy & E). apply str_eqb_true in E. now subst.
  - intros H. exists x. split; auto. now apply str_eqb_true.
Qed.

Lemma uniqueFrom_in (seen l : list jsstring) (x : jsstring) :
  In x (uniqueFrom seen l) <-> In x l /\ ~ In x seen.
Proof.
  revert seen; induction l as [|y l IH]; intros seen; simpl.
  - tauto.
  - destruct (existsb (str_eqb y) seen) eqn:E.
    + apply existsb_str in E. rewrite IH. split.
      * tauto.
      * intros [[-> | H] Hn]; tauto.
    + assert (Hy : ~ In y seen).
      { intros H. apply existsb_str in H. congruence. }
      simpl. rewrite IH. simpl. split.
      * intros [-> | [H Hn]]; [tauto|]. split; [tauto|]. tauto.
      * intros [[-> | H] Hn]; [tauto|].
        destruct (list_eq_dec codeunit_dec y x); [tauto|]. right. tauto.
Qed.

Lemma uniqueFrom_NoDup (seen l : list jsstring) : NoDup (uniqueFrom seen l).
Proof.
  revert seen; induction l as [|y l IH]; intros seen; simpl.
  - constructor.
  - destruct (existsb (str_eqb y) seen); [apply IH|].
    constructor; [|apply IH]. rewrite uniqueFrom_in. simpl. tauto.
Qed.

Lemma uniqueFrom_snoc (seen l : list jsstring) (x : jsstring) :
  uniqueFrom seen (l ++ [x])
  = if existsb (str_eqb x) (seen ++ l)
    then uniqueFrom seen l else uniqueFrom seen l ++ [x].
Proof.
  revert seen; induction l as [|y l IH]; intros seen; simpl.
  - rewrite app_nil_r. destruct (existsb (str_eqb x) seen); reflexivity.
  - destruct (existsb (str_eqb y) seen) eqn:E.
    + rewrite IH. rewrite !existsb_app. simpl.
      destruct (str_eqb x y) eqn:Exy; [|reflexivity].
      apply str_eqb_true in Exy. subst y. rewrite E. reflexivity.
    + rewrite IH. rewrite !existsb_app. simpl.
      destruct (str_eqb x y), (existsb (str_eqb x) seen), (existsb (str_eqb x) l);
        reflexivity.
Qed.

(** [unique] adds the elements one after the other, as [new Set] does. *)
Lemma unique_snoc (l : list jsstring) (x : jsstring) :
  unique (l ++ [x])
  = if existsb (str_eqb x) l then unique l else unique l ++ [x].
Proof. unfold unique. now rewrite uniqueFrom_snoc. Qed.

Lemma pushedTerms_in (lower : jsstring) (ms : list RuleMapping) (t : jsstring) :
  In t (pushedTerms lower ms)
  <-> exists m, In m ms
        /\ (exists kw a b, In kw (keywords m) /\ lower = a ++ kw ++ b)
        /\ In t (technicalTerms m).
Proof.
  unfold pushedTerms. rewrite in_flat_map. split.
  - intros (m & Hm & Ht). exists m. split; [assumption|].
    destruct (hasKeyword lower m) eqn:E; [|destruct Ht].
    split; [|assumption].
    unfold hasKeyword in E. apply existsb_exists in E.
    destruct E as (kw & Hkw & Hinc). apply includes_iff in Hinc.
    destruct Hinc as (a & b & Hab). now exists kw, a, b.
  - intros (m & Hm & (kw & a & b & Hkw & Hab) & Ht). exists m. split; [assumption|].
    assert (E : hasKeyword lower m = true).
    { unfold hasKeyword. apply existsb_exists. exists kw. split; [assumption|].
      apply includes_iff. now exists a, b. }
    now rewrite E.
Qed.

Lemma unique_in (l : list jsstring) (x : jsstring) : In x (unique l) <-> In x l.
Proof. unfold unique. rewrite uniqueFrom_in. simpl. tauto. Qed.



(* ===================================================================== *)
(** * The prompt of the rule engine *)
(* ===================================================================== *)

Lemma makePreview_long (p : jsstring) :
  200 < length p ->
  makePreview p = firstn 200 p ++ lit "..."
  /\ length (makePreview p) = 203
  /\ firstn 200 (makePreview p) = firstn 200 p.
Proof.
  intros H. unfold makePreview. apply Nat.ltb_lt in H as Hb. rewrite Hb.
  unfold substring. simpl skipn. rewrite Nat.sub_0_r.
  split; [reflexivity|]. split.
  - rewrite length_app, firstn_length_le by lia. reflexivity.
  - rewrite firstn_app, firstn_length_le by lia.
    rewrite Nat.sub_diag, firstn_O, app_nil_r.
    rewrite firstn_firstn, Nat.min_id. reflexivity.
Qed.

Lemma makePreview_short (p : jsstring) :
  length p <= 200 -> makePreview p = p.
Proof.
  intros H. unfold makePreview.
  destruct (200 <? length p) eqn:E; [|reflexivity].
  apply Nat.ltb_lt in E. lia.
Qed.

Lemma enhance_prompt (req : PromptRequest) :
  prompt (enhance req)
  = buildPrompt (getTemplatesByIntent (intent req)) (descriptionOf req)
                (formatContext req)
    ++ relatedConcepts (hintsOf req).
Proof.
  cbv delta [enhance enhanceWith prompt descriptionOf hintsOf
             addTechnicalTerms termsAdded] beta iota zeta.
  reflexivity.
Qed.







(** C9.  The hints are computed from the raw user input: a mapping
    contributes its terms when one of its keywords is a substring of the
    lowered input; the list is freed of repetitions in the order of first
    occurrence, as a set filled from left to right; the prompt ends with
    the line of related concepts exactly when the list is not empty. *)
Theorem hints_from_raw_input (req : PromptRequest) :
  let hints := hintsOf req in
  let body := buildPrompt (getTemplatesByIntent (intent req))
                (descriptionOf req) (formatContext req) in
  termsAdded (addTechnicalTerms (userInput req)) = hints
  /\ (forall t,
        In t hints
        <-> exists m, In m TECHNICAL_ENHANCEMENTS
              /\ (exists kw a b, In kw (keywords m)
                                 /\ toLowerCase (userInput req) = a ++ kw ++ b)
              /\ In t (technicalTerms m))
  /\ NoDup hints
  /\ unique [] = []
  /\ (forall l x, unique (l ++ [x])
                  = if existsb (str_eqb x) l then unique l else unique l ++ [x])
  /\ (hints <> [] ->
      prompt (enhance req)
      = body ++ nl ++ nl ++ lit "*Related concepts: "
             ++ join (lit ", ") hints ++ lit "*")
  /\ (hints = [] ->
      prompt (enhance req) = body
      /\ endsWith (prompt (enhance req)) (lit "*") = false).
Proof.
  cbv zeta. split; [reflexivity|]. split.
  { intros t. unfold hintsOf. rewrite unique_in. apply pushedTerms_in. }
  split; [apply uniqueFrom_NoDup|]. split; [reflexivity|].
  split; [exact unique_snoc|]. rewrite enhance_prompt. split.
  - intros Hne. destruct (hintsOf req) as [|h hs]; [congruence|].
    unfold relatedConcepts. reflexivity.
  - intros ->. simpl relatedConcepts. rewrite app_nil_r. split; [reflexivity|].
    apply catalog_body_end.
Qed.

(** The hints follow the raw input, not the rewritten text: [btn] is
    expanded to [button] in the description, and yet triggers nothing. *)
Example hints_ignore_expansion :
  descriptionOf (request IFix "btn") = lit "Button."
  /\ hintsOf (request IFix "btn") = []
  /\ hintsOf (request IFix "button") 
     = [lit "onClick event"; lit "event handler"; lit "user interaction"].
Proof. repeat split; vm_compute; reflexivity. Qed.

(** Terms pushed by several mappings appear once, where first seen. *)
Example hints_deduplicated :
  hintsOf (request IFix "save the state")
  = [lit "storage"; lit "database operation"; lit "state management";
     lit "state update"; lit "reactivity"].
Proof. vm_compute; reflexivity. Qed.

(** The preview of the rule engine: a prompt of more than 200 characters
    is cut to its first 200 characters followed by three dots. *)
Lemma rule_preview (req : PromptRequest) :
  let r := enhance req in
  (200 < length (prompt r) ->
   preview r = firstn 200 (prompt r) ++ lit "..."
   /\ length (preview r) = 203
   /\ firstn 200 (preview r) = firstn 200 (prompt r))
  /\ (length (prompt r) <= 200 -> preview r = prompt r).
Proof.
  cbv zeta.
  assert (E : preview (enhance req) = makePreview (prompt (enhance req))).
  { cbv delta [enhance enhanceWith prompt preview] beta iota zeta. reflexivity. }
  rewrite E. split; [apply makePreview_long | apply makePreview_short].
Qed.

(* ===================================================================== *)
(** * Computations on the host *)
(* ===================================================================== *)

(** Three properties of a computation are proved by following its
    structure: it leaves the host alone ([keeps]), it never throws
    ([total]), and its results satisfy a predicate ([yields]). *)

Local Open Scope host_scope.

(** Running a computation: its outcome and the world it leaves. *)
Lemma run_bind (A B : Type) (m : M A) (k : A -> M B) (w : World) :
  bind m k w
  = match fst (m w) with
    | Returns a => k a (snd (m w))
    | Throws e => (Throws e, snd (m w))
    end.
Proof. unfold bind. destruct (m w) as [[a | e] w']; reflexivity. Qed.

Lemma run_tryCatch (A : Type) (m : M A) (h : Error -> M A) (w : World) :
  tryCatch m h w
  = match fst (m w) with
    | Returns a => (Returns a, snd (m w))
    | Throws e => h e (snd (m w))
    end.
Proof. unfold tryCatch. destruct (m w) as [[a | e] w']; reflexivity. Qed.

Lemma host_config (w w' : World) : host w' = host w -> config w' = config w.
Proof. unfold host. congruence. Qed.

Lemma host_net (w w' : World) : host w' = host w -> net w' = net w.
Proof. unfold host. congruence. Qed.

Lemma keeps_ret (A : Type) (a : A) : keeps (ret a).
Proof. intros w; reflexivity. Qed.

Lemma keeps_throw (A : Type) (e : Error) : keeps (@throw A e).
Proof. intros w; reflexivity. Qed.

Lemma keeps_get (A : Type) (f : World -> A) : keeps (get f).
Proof. intros w; reflexivity. Qed.

Lemma keeps_bind (A B : Type) (m : M A) (k : A -> M B) :
  keeps m -> (forall a, keeps (k a)) -> keeps (bind m k).
Proof.
  intros Hm Hk w. unfold bind. specialize (Hm w).
  destruct (m w) as [[a | e] w']; simpl in *.
  - now rewrite (Hk a w').
  - exact Hm.
Qed.

Lemma keeps_tryCatch (A : Type) (m : M A) (h : Error -> M A) :
  keeps m -> (forall e, keeps (h e)) -> keeps (tryCatch m h).
Proof.
  intros Hm Hh w. unfold tryCatch. specialize (Hm w).
  destruct (m w) as [[a | e] w']; simpl in *.
  - exact Hm.
  - now rewrite (Hh e w').
Qed.

Lemma keeps_fetch (q : Request) : keeps (fetch q).
Proof.
  intros w. unfold fetch. destruct (net w (length (calls w)) q); reflexivity.
Qed.

Lemma keeps_probe (A : Type) (p : Probe) (f : Env -> A) : keeps (probe p f).
Proof. intros w; reflexivity. Qed.

Lemma keeps_consoleError (e : Error) : keeps (consoleError e).
Proof. intros w; reflexivity. Qed.

Lemma keeps_configGet (key : Config -> option jsstring) (d : jsstring) :
  keeps (configGet key d).
Proof. intros w; reflexivity. Qed.

Lemma keeps_readField (A : Type) (x : Extract A) : keeps (readField x).
Proof. destruct x; intros w; reflexivity. Qed.

Lemma keeps_setDetector (d : DetectorState) : keeps (modify (setDetector d)).
Proof. intros w; reflexivity. Qed.

Lemma keeps_setEnhancer (f : World -> EnhancerState) :
  keeps (modify (fun w => setEnhancer (f w) w)).
Proof. intros w; reflexivity. Qed.

Create HintDb keeps.
#[local] Hint Resolve keeps_ret keeps_throw keeps_get keeps_fetch keeps_probe
  keeps_consoleError keeps_configGet keeps_readField keeps_setDetector
  keeps_setEnhancer : keeps.

Ltac keeps_tac :=
  repeat first
    [ progress intros
    | solve [auto with keeps]
    | apply keeps_bind
    | apply keeps_tryCatch
    | match goal with
      | |- keeps (if ?b then _ else _) => destruct b
      | |- keeps (match ?x with _ => _ end) => destruct x
      end ].

Lemma total_ret (A : Type) (a : A) : total (ret a).
Proof. intros w; now exists a. Qed.

Lemma total_get (A : Type) (f : World -> A) : total (get f).
Proof. intros w; now exists (f w). Qed.

Lemma total_modify (f : World -> World) : total (modify f).
Proof. intros w; now exists tt. Qed.

Lemma total_probe (A : Type) (p : Probe) (f : Env -> A) : total (probe p f).
Proof. intros w; now exists (f (env w)). Qed.

Lemma total_bind (A B : Type) (m : M A) (k : A -> M B) :
  total m -> (forall a, total (k a)) -> total (bind m k).
Proof.
  intros Hm Hk w. rewrite run_bind. destruct (Hm w) as [a ->]. apply Hk.
Qed.

Lemma total_tryCatch (A : Type) (m : M A) (h : Error -> M A) :
  (forall e, total (h e)) -> total (tryCatch m h).
Proof.
  intros Hh w. rewrite run_tryCatch.
  destruct (fst (m w)) as [a | e]; [now exists a | apply Hh].
Qed.

Create HintDb total.
#[local] Hint Resolve total_ret total_get total_modify total_probe : total.

Ltac total_tac :=
  repeat first
    [ progress intros
    | solve [auto with total]
    | apply total_tryCatch
    | apply total_bind
    | match goal with
      | |- total (if ?b then _ else _) => destruct b
      | |- total (match ?x with _ => _ end) => destruct x
      end ].

Lemma yields_ret (A : Type) (P : A -> Prop) (a : A) : P a -> yields P (ret a).
Proof. intros H w. exact H. Qed.

Lemma yields_throw (A : Type) (P : A -> Prop) (e : Error) :
  yields P (@throw A e).
Proof. intros w. exact I. Qed.

Lemma yields_bind (A B : Type) (P : B -> Prop) (m : M A) (k : A -> M B) :
  (forall a, yields P (k a)) -> yields P (bind m k).
Proof.
  intros Hk w. rewrite run_bind.
  destruct (fst (m w)) as [a | e]; [apply Hk | exact I].
Qed.

Lemma yields_tryCatch (A : Type) (P : A -> Prop) (m : M A) (h : Error -> M A) :
  yields P m -> (forall e, yields P (h e)) -> yields P (tryCatch m h).
Proof.
  intros Hm Hh w. rewrite run_tryCatch. specialize (Hm w).
  destruct (fst (m w)) as [a | e]; [exact Hm | apply Hh].
Qed.

(* ===================================================================== *)
(** * The cache of the detector *)
(* ===================================================================== *)

Lemma keeps_detect (forceRefresh : bool) : keeps (LLMDetector.detect forceRefresh).
Proof.
  unfold LLMDetector.detect, LLMDetector.runDetection,
    LLMDetector.isCursorEditor, LLMDetector.isClaudeCodeInstalled,
    LLMDetector.isContinueInstalled, LLMDetector.isCodyInstalled,
    LLMDetector.isCopilotInstalled, LLMDetector.execAsync,
    LLMDetector.getExtension.
  keeps_tac.
Qed.

Lemma total_detect (forceRefresh : bool) : total (LLMDetector.detect forceRefresh).
Proof.
  unfold LLMDetector.detect, LLMDetector.runDetection,
    LLMDetector.isCursorEditor, LLMDetector.isClaudeCodeInstalled,
    LLMDetector.isContinueInstalled, LLMDetector.isCodyInstalled,
    LLMDetector.isCopilotInstalled, LLMDetector.execAsync,
    LLMDetector.getExtension.
  total_tac.
Qed.

Local Open Scope Z_scope.

(** A cached result younger than the time-to-live is returned as it is:
    the world does not change, so nothing is probed. *)
Lemma detect_cached (w : World) (r : LLMDetectionResult) :
  cachedResult (detector w) = Some r ->
  now w - lastCheck (detector w) < LLMDetector.CACHE_DURATION ->
  LLMDetector.detect false w = (Returns r, w).
Proof.
  intros Hc Ht. unfold LLMDetector.detect, bind, get, LLMDetector.cacheHit.
  rewrite Hc. apply Z.ltb_lt in Ht. rewrite Ht. reflexivity.
Qed.

(** The detection proper probes the environment, the application name
    first, and touches nothing else. *)
Lemma runDetection_probes (w : World) :
  exists r l,
    LLMDetector.runDetection w
    = (Returns r, setProbes (probes w ++ ProbeAppName :: l) w).
Proof.
  unfold LLMDetector.runDetection, LLMDetector.isCursorEditor,
    LLMDetector.isClaudeCodeInstalled, LLMDetector.isContinueInstalled,
    LLMDetector.isCodyInstalled, LLMDetector.isCopilotInstalled,
    LLMDetector.execAsync, LLMDetector.getExtension, bind, probe, ret,
    setProbes.
  cbn [env probes config now net calls console detector enhancer].
  repeat (match goal with
          | |- context [if ?b then _ else _] => destruct b
          end;
          cbn [env probes config now net calls console detector enhancer]);
    rewrite <- ?app_assoc; cbn [app]; eexists; eexists; reflexivity.
Qed.

(** Without a valid cached result the detector probes again and stores
    what it found, stamped with the current time. *)
Lemma detect_probes (forceRefresh : bool) (w : World) :
  LLMDetector.cacheHit forceRefresh (now w) (detector w) = None ->
  exists r l,
    LLMDetector.detect forceRefresh w
    = (Returns r,
       setDetector {| cachedResult := Some r; lastCheck := now w |}
                   (setProbes (probes w ++ ProbeAppName :: l) w)).
Proof.
  intros Hc. unfold LLMDetector.detect, bind, get. rewrite Hc.
  destruct (runDetection_probes w) as (r & l & ->).
  exists r, l. reflexivity.
Qed.

Lemma cacheHit_expired (d : DetectorState) (t : Z) :
  LLMDetector.CACHE_DURATION <= t - lastCheck d ->
  LLMDetector.cacheHit false t d = None.
Proof.
  intros H. unfold LLMDetector.cacheHit.
  destruct (cachedResult d); [|reflexivity].
  apply Z.ltb_ge in H. now rewrite H.
Qed.

Lemma cacheHit_forced (d : DetectorState) (t : Z) :
  LLMDetector.cacheHit true t d = None.
Proof. reflexivity. Qed.

Lemma cacheHit_cleared (w : World) (forceRefresh : bool) (t : Z) :
  LLMDetector.cacheHit forceRefresh t
    (detector (snd (LLMDetector.clearCache w))) = None.
Proof. destruct forceRefresh; reflexivity. Qed.

(** X19.  The detector keeps its promise.  After a call that probed at time
    [now w], a call at a time less than 60 seconds later returns the same
    result and leaves the world alone, whatever became of the environment;
    a call after the expiry, after [clearCache], or with [forceRefresh]
    probes again. *)
Lemma detector_cache (forceRefresh : bool) (w : World) :
  LLMDetector.cacheHit forceRefresh (now w) (detector w) = None ->
  let first := LLMDetector.detect forceRefresh w in
  (forall w2,
      detector w2 = detector (snd first) ->
      now w2 - now w < 60000 ->
      LLMDetector.detect false w2 = (fst first, w2))
  /\ (forall w2,
        detector w2 = detector (snd first) ->
        60000 <= now w2 - now w ->
        exists r l,
          LLMDetector.detect false w2
          = (Returns r,
             setDetector {| cachedResult := Some r; lastCheck := now w2 |}
                         (setProbes (probes w2 ++ ProbeAppName :: l) w2)))
  /\ (forall w2 b,
        detector w2 = detector (snd (LLMDetector.clearCache (snd first))) ->
        exists r l,
          LLMDetector.detect b w2
          = (Returns r,
             setDetector {| cachedResult := Some r; lastCheck := now w2 |}
                         (setProbes (probes w2 ++ ProbeAppName :: l) w2)))
  /\ (forall w2,
        exists r l,
          LLMDetector.detect true w2
          = (Returns r,
             setDetector {| cachedResult := Some r; lastCheck := now w2 |}
                         (setProbes (probes w2 ++ ProbeAppName :: l) w2))).
Proof.
  intros Hc first.
  destruct (detect_probes forceRefresh w Hc) as (r & l & E).
  subst first. rewrite E. cbn [fst snd]. repeat split.
  - intros w2 Hd Ht. apply detect_cached.
    + rewrite Hd. reflexivity.
    + rewrite Hd. exact Ht.
  - intros w2 Hd Ht. apply detect_probes, cacheHit_expired.
    rewrite Hd. exact Ht.
  - intros w2 b Hd. apply detect_probes. rewrite Hd. now destruct b.
  - intros w2. apply detect_probes, cacheHit_forced.
Qed.

Lemma detector_cache_witness :
  let w := world (settings unset unset unset) unreachable in
  LLMDetector.cacheHit false (now w) (detector w) = None
  /\ (forall w2,
         detector w2 = detector (snd (LLMDetector.detect false w)) ->
         (now w2 - now w < 60000)%Z ->
         LLMDetector.detect false w2 = (fst (LLMDetector.detect false w), w2)).
Proof.
  cbv zeta. split; [reflexivity|].
  exact (proj1 (detector_cache false
                  (world (settings unset unset unset) unreachable) eq_refl)).
Defined.

Local Close Scope Z_scope.

(* ===================================================================== *)
(** * The AI enhancer *)
(* ===================================================================== *)

Lemma keeps_checkOllama : keeps AIEnhancer.checkOllama.
Proof.
  unfold AIEnhancer.checkOllama, AIEnhancer.isOllamaRunning,
    AIEnhancer.getOllamaModels, AIEnhancer.setAvailable, AIEnhancer.setModels.
  keeps_tac.
Qed.

Lemma keeps_callOllamaAPI (u : jsstring) : keeps (AIEnhancer.callOllamaAPI u).
Proof. unfold AIEnhancer.callOllamaAPI. keeps_tac. Qed.

Lemma keeps_callAnthropicAPI (u k : jsstring) :
  keeps (AIEnhancer.callAnthropicAPI u k).
Proof. unfold AIEnhancer.callAnthropicAPI. keeps_tac. Qed.

Lemma keeps_callOpenAIAPI (u k : jsstring) : keeps (AIEnhancer.callOpenAIAPI u k).
Proof. unfold AIEnhancer.callOpenAIAPI. keeps_tac. Qed.

#[local] Hint Resolve keeps_detect keeps_checkOllama keeps_callOllamaAPI
  keeps_callAnthropicAPI keeps_callOpenAIAPI : keeps.

Lemma keeps_enhanceWithManualAPI (u f : jsstring) :
  keeps (AIEnhancer.enhanceWithManualAPI u f).
Proof. unfold AIEnhancer.enhanceWithManualAPI. keeps_tac. Qed.

#[local] Hint Resolve keeps_enhanceWithManualAPI : keeps.

Lemma keeps_enhanceWithProvider (p : LLMProvider) (u f : jsstring) :
  keeps (AIEnhancer.enhanceWithProvider p u f).
Proof. unfold AIEnhancer.enhanceWithProvider. keeps_tac. Qed.

#[local] Hint Resolve keeps_enhanceWithProvider : keeps.

Lemma keeps_tryEnhance (mode u f : jsstring) :
  keeps (AIEnhancer.tryEnhance mode u f).
Proof. unfold AIEnhancer.tryEnhance. keeps_tac. Qed.

Lemma total_checkOllama : total AIEnhancer.checkOllama.
Proof.
  unfold AIEnhancer.checkOllama, AIEnhancer.isOllamaRunning,
    AIEnhancer.getOllamaModels, AIEnhancer.setAvailable, AIEnhancer.setModels,
    configGet.
  total_tac.
Qed.

(** [checkOllama] sends its reachability probe first, and stores what it
    found. *)
Lemma checkOllama_calls (w : World) :
  (exists l,
      calls (snd (AIEnhancer.checkOllama w))
      = calls w ++ GetTags (endpointOf w) true :: l)
  /\ ollamaAvailable (enhancer (snd (AIEnhancer.checkOllama w))) <> None.
Proof.
  unfold AIEnhancer.checkOllama, AIEnhancer.isOllamaRunning,
    AIEnhancer.getOllamaModels, AIEnhancer.setAvailable, AIEnhancer.setModels,
    bind, tryCatch, configGet, get, modify, fetch, ret, readField.
  cbn [config calls net setCalls setEnhancer enhancer fst snd].
  fold (endpointOf w).
  destruct (net w (length (calls w)) (GetTags (endpointOf w) true)) as [|r1];
    cbn [config calls net setCalls setEnhancer enhancer fst snd ok
         ollamaAvailable];
    [split; [exists []; reflexivity | discriminate]|].
  destruct (ok r1);
    cbn [config calls net setCalls setEnhancer enhancer fst snd ok
         ollamaAvailable];
    [|split; [exists []; reflexivity | discriminate]].
  match goal with
  | |- context [net w ?n ?q] => destruct (net w n q) as [|r2]
  end;
    cbn [config calls net setCalls setEnhancer enhancer fst snd ok
         ollamaAvailable];
    [split; [rewrite <- app_assoc; eexists; reflexivity | discriminate]|].
  destruct (ok r2); cbn [negb];
    cbn [config calls net setCalls setEnhancer enhancer fst snd ok
         ollamaAvailable];
    [|split; [rewrite <- app_assoc; eexists; reflexivity | discriminate]].
  destruct (models r2);
    cbn [config calls net setCalls setEnhancer enhancer fst snd ok throw
         ollamaAvailable];
    (split; [rewrite <- app_assoc; eexists; reflexivity | discriminate]).
Qed.

(** C10, the divergence.  [checkOllama] stores what it finds and never
    reads it back: two calls in a row, with no time between them and with
    the result of the first one stored, send the reachability probe
    twice. *)
Theorem checkOllama_probes_every_time (w : World) :
  let w1 := snd (AIEnhancer.checkOllama w) in
  let w2 := snd (AIEnhancer.checkOllama w1) in
  now w2 = now w
  /\ ollamaAvailable (enhancer w1) <> None
  /\ (exists l1, calls w1 = calls w ++ GetTags (endpointOf w) true :: l1)
  /\ (exists l2, calls w2 = calls w1 ++ GetTags (endpointOf w) true :: l2).
Proof.
  cbv zeta.
  pose proof (keeps_checkOllama w) as K1.
  pose proof (keeps_checkOllama (snd (AIEnhancer.checkOllama w))) as K2.
  split; [unfold host in *; congruence|].
  split; [apply checkOllama_calls|].
  split; [apply checkOllama_calls|].
  replace (endpointOf w) with (endpointOf (snd (AIEnhancer.checkOllama w))).
  - apply checkOllama_calls.
  - unfold endpointOf. now rewrite (host_config _ _ K1).
Qed.

(** C3.  In the mode [ruleOnly], [enhance] returns the rule-based prompt
    with [wasAiEnhanced = false] and leaves the world as it found it: no
    request is issued and nothing is probed. *)
Theorem ruleOnly_returns_fallback (userInput ruleBasedPrompt : jsstring)
        (w : World) :
  modeOf w = lit "ruleOnly" ->
  AIEnhancer.enhance userInput ruleBasedPrompt w
  = (Returns (fallbackResult ruleBasedPrompt), w)
  /\ calls (snd (AIEnhancer.enhance userInput ruleBasedPrompt w)) = calls w
  /\ probes (snd (AIEnhancer.enhance userInput ruleBasedPrompt w)) = probes w.
Proof.
  intros Hm.
  assert (E : AIEnhancer.enhance userInput ruleBasedPrompt w
              = (Returns (fallbackResult ruleBasedPrompt), w)).
  { unfold AIEnhancer.enhance, bind, configGet, get. fold (modeOf w).
    rewrite Hm. reflexivity. }
  rewrite E. auto.
Qed.

Lemma ruleOnly_returns_fallback_witness :
  modeOf (world (settings (given "ruleOnly") unset unset) (answering "Better."))
  = lit "ruleOnly"
  /\ AIEnhancer.enhance (lit "btn broken") (lit "Fix the button.")
       (world (settings (given "ruleOnly") unset unset) (answering "Better."))
     = (Returns (fallbackResult (lit "Fix the button.")),
        world (settings (given "ruleOnly") unset unset) (answering "Better.")).
Proof.
  split; [reflexivity|].
  apply (ruleOnly_returns_fallback (lit "btn broken") (lit "Fix the button.")
           (world (settings (given "ruleOnly") unset unset) (answering "Better."))).
  reflexivity.
Defined.

Lemma backendsFail_host (w w' : World) :
  host w' = host w -> backendsFail w -> backendsFail w'.
Proof. intros H. unfold backendsFail. now rewrite (host_net _ _ H). Qed.

Lemma ollamaFails_host (w w' : World) :
  host w' = host w -> ollamaFails w -> ollamaFails w'.
Proof. intros H. unfold ollamaFails. now rewrite (host_net _ _ H). Qed.

Lemma cannotDispatch_host (w w' : World) :
  host w' = host w -> cannotDispatch w -> cannotDispatch w'.
Proof.
  intros H. unfold cannotDispatch, providerOf, apiKeyOf.
  now rewrite (host_config _ _ H).
Qed.

Lemma backendsFail_ollama (w : World) : backendsFail w -> ollamaFails w.
Proof. intros H n e m u. now apply H. Qed.

Local Arguments AIEnhancer.cleanUp : simpl never.
Local Arguments AIEnhancer.orInput : simpl never.
Local Arguments substring : simpl never.

Lemma callOllamaAPI_throws (u : jsstring) (w : World) :
  ollamaFails w -> exists e, fst (AIEnhancer.callOllamaAPI u w) = Throws e.
Proof.
  intros H. unfold AIEnhancer.callOllamaAPI, bind, tryCatch, configGet, get,
    fetch, consoleError, modify, throw.
  simpl. match goal with |- context [net w ?n (PostGenerate ?e ?m u)] =>
    specialize (H n e m u); destruct (net w n (PostGenerate e m u)) as [|r] end;
    simpl; [eauto|].
  destruct H as [H | H]; rewrite H; simpl; [eauto|].
  destruct (ok r); simpl; eauto.
Qed.

Lemma callAnthropicAPI_throws (u k : jsstring) (w : World) :
  backendsFail w -> exists e, fst (AIEnhancer.callAnthropicAPI u k w) = Throws e.
Proof.
  intros H. unfold AIEnhancer.callAnthropicAPI, bind, fetch, throw.
  specialize (H (length (calls w)) (PostAnthropic k u) eq_refl).
  destruct (net w (length (calls w)) (PostAnthropic k u)) as [|r];
    simpl; [eauto|].
  destruct H as [H | H]; rewrite H; simpl; [eauto|].
  destruct (ok r); simpl; eauto.
Qed.

Lemma callOpenAIAPI_throws (u k : jsstring) (w : World) :
  backendsFail w -> exists e, fst (AIEnhancer.callOpenAIAPI u k w) = Throws e.
Proof.
  intros H. unfold AIEnhancer.callOpenAIAPI, bind, fetch, throw.
  specialize (H (length (calls w)) (PostOpenAI k u) eq_refl).
  destruct (net w (length (calls w)) (PostOpenAI k u)) as [|r];
    simpl; [eauto|].
  destruct H as [H | H]; rewrite H; simpl; [eauto|].
  destruct (ok r); simpl; eauto.
Qed.

Lemma enhanceWithManualAPI_degrades (u f : jsstring) (w : World) :
  backendsFail w \/ cannotDispatch w ->
  degrades f (fst (AIEnhancer.enhanceWithManualAPI u f w)).
Proof.
  intros H. unfold AIEnhancer.enhanceWithManualAPI.
  rewrite run_bind. unfold configGet, get. cbn [fst snd].
  fold (providerOf w).
  destruct (str_eqb (providerOf w) (lit "ollama")) eqn:Eo.
  - apply str_eqb_true in Eo. destruct H as [H | [H _]]; [|contradiction].
    destruct (callOllamaAPI_throws u w (backendsFail_ollama w H)) as [e ->].
    exact I.
  - rewrite run_bind. unfold configGet, get. cbn [fst snd].
    fold (apiKeyOf w).
    destruct (truthy (apiKeyOf w)) eqn:Ek; cbn [negb]; [|reflexivity].
    rewrite run_tryCatch.
    destruct (str_eqb (providerOf w) (lit "anthropic")) eqn:Ea.
    { destruct H as [H | [_ [H | [H _]]]].
      - destruct (callAnthropicAPI_throws u (apiKeyOf w) w H) as [e ->].
        reflexivity.
      - rewrite H in Ek. discriminate.
      - apply str_eqb_true in Ea. contradiction. }
    destruct (str_eqb (providerOf w) (lit "openai")) eqn:Ep.
    { destruct H as [H | [_ [H | [_ H]]]].
      - destruct (callOpenAIAPI_throws u (apiKeyOf w) w H) as [e ->].
        reflexivity.
      - rewrite H in Ek. discriminate.
      - apply str_eqb_true in Ep. contradiction. }
    reflexivity.
Qed.

Lemma enhanceWithProvider_degrades (p : LLMProvider) (u f : jsstring)
      (w : World) :
  backendsFail w \/ cannotDispatch w ->
  degrades f (fst (AIEnhancer.enhanceWithProvider p u f w)).
Proof.
  intros H. destruct p; simpl;
    solve [reflexivity | now apply enhanceWithManualAPI_degrades].
Qed.

(** The [try] block under a failing AI path: it throws, falls through, or
    returns the rule-based result. *)
Lemma tryEnhance_degrades (u f : jsstring) (w : World) :
  aiPathFails w ->
  match fst (AIEnhancer.tryEnhance (modeOf w) u f w) with
  | Returns (Some r) => r = fallbackResult f
  | _ => True
  end.
Proof.
  intros H. unfold AIEnhancer.tryEnhance.
  assert (Hd : forall w', host w' = host w ->
                          backendsFail w' \/ cannotDispatch w').
  { intros w' Hh. destruct H as [H | [_ H]].
    - left. now apply (backendsFail_host w).
    - right. now apply (cannotDispatch_host w). }
  destruct (str_eqb (modeOf w) (lit "auto")) eqn:Ea.
  - assert (Ho : forall w', host w' = host w -> ollamaFails w').
    { intros w' Hh. apply (ollamaFails_host w); [assumption|].
      destruct H as [H | [[H | H] _]].
      - now apply backendsFail_ollama.
      - apply str_eqb_true in Ea. rewrite H in Ea. discriminate.
      - assumption. }
    rewrite run_bind. destruct (total_checkOllama w) as [st ->].
    pose proof (keeps_checkOllama w) as K1.
    set (w1 := snd (AIEnhancer.checkOllama w)) in *.
    destruct (fst st && (0 <? length (snd st))).
    + rewrite run_bind.
      destruct (callOllamaAPI_throws u w1 (Ho w1 K1)) as [e ->]. exact I.
    + rewrite run_bind. destruct (total_detect false w1) as [d ->].
      pose proof (keeps_detect false w1) as K2.
      set (w2 := snd (LLMDetector.detect false w1)) in *.
      assert (K : host w2 = host w) by congruence.
      destruct (canEnhance d); [|exact I].
      rewrite run_bind.
      pose proof (enhanceWithProvider_degrades (provider d) u f w2 (Hd w2 K)) as P.
      destruct (fst (AIEnhancer.enhanceWithProvider (provider d) u f w2));
        [exact P | exact I].
  - destruct (str_eqb (modeOf w) (lit "manual")); [|exact I].
    rewrite run_bind.
    pose proof (enhanceWithManualAPI_degrades u f w (Hd w eq_refl)) as P.
    destruct (fst (AIEnhancer.enhanceWithManualAPI u f w)); [exact P | exact I].
Qed.



(** The failures of the AI path, one by one, and a success. *)
Example fallback_on_each_failure :
  let u := lit "btn broken" in
  let f := lit "Fix the button." in
  let run cfg answers := fst (AIEnhancer.enhance u f (world cfg answers)) in
  run (settings (given "auto") unset unset) unreachable
  = Returns (fallbackResult f)
  /\ run (settings (given "auto") unset unset) serverError
     = Returns (fallbackResult f)
  /\ run (settings (given "auto") unset unset) malformedBody
     = Returns (fallbackResult f)
  /\ run (settings (given "manual") unset unset) serverError
     = Returns (fallbackResult f)
  /\ run (settings (given "manual") (given "anthropic") (given "key")) malformedBody
     = Returns (fallbackResult f)
  /\ run (settings (given "manual") (given "openai") unset) (answering "Better.")
     = Returns (fallbackResult f)
  /\ run (settings (given "manual") (given "gemini") (given "key")) (answering "Better.")
     = Returns (fallbackResult f)
  /\ run (settings (given "manual") (given "openai") (given "key")) (answering "Better.")
     = Returns {| prompt := lit "Better."; preview := lit "Better.";
                  wasAiEnhanced := true |}.
Proof. cbv zeta. repeat split; vm_compute; reflexivity. Qed.

Lemma cutPreview_mkPrompt (t : jsstring) (ai : bool) :
  cutPreview (AIEnhancer.mkPrompt t ai).
Proof. reflexivity. Qed.

Ltac yields_tac :=
  repeat first
    [ progress intros
    | assumption
    | apply yields_throw
    | apply yields_ret; first [ apply cutPreview_mkPrompt | exact I ]
    | apply yields_tryCatch
    | apply yields_bind
    | match goal with
      | |- yields _ (if ?b then _ else _) => destruct b
      | |- yields _ (match ?x with _ => _ end) => destruct x
      end ].

Lemma yields_callOllamaAPI (u : jsstring) :
  yields cutPreview (AIEnhancer.callOllamaAPI u).
Proof. unfold AIEnhancer.callOllamaAPI. yields_tac. Qed.

Lemma yields_callAnthropicAPI (u k : jsstring) :
  yields cutPreview (AIEnhancer.callAnthropicAPI u k).
Proof. unfold AIEnhancer.callAnthropicAPI. yields_tac. Qed.

Lemma yields_callOpenAIAPI (u k : jsstring) :
  yields cutPreview (AIEnhancer.callOpenAIAPI u k).
Proof. unfold AIEnhancer.callOpenAIAPI. yields_tac. Qed.

Lemma yields_enhanceWithManualAPI (u f : jsstring) :
  yields cutPreview (AIEnhancer.enhanceWithManualAPI u f).
Proof.
  pose proof yields_callOllamaAPI. pose proof yields_callAnthropicAPI.
  pose proof yields_callOpenAIAPI.
  unfold AIEnhancer.enhanceWithManualAPI. yields_tac.
Qed.

Lemma yields_enhanceWithProvider (p : LLMProvider) (u f : jsstring) :
  yields cutPreview (AIEnhancer.enhanceWithProvider p u f).
Proof.
  pose proof yields_enhanceWithManualAPI.
  unfold AIEnhancer.enhanceWithProvider. yields_tac.
Qed.

Lemma yields_some (m : M EnhancedPrompt) :
  yields cutPreview m ->
  yields cutPreviewOpt (bind m (fun r => ret (Some r))).
Proof.
  intros H w. rewrite run_bind. specialize (H w).
  destruct (fst (m w)); [exact H | exact I].
Qed.

Lemma yields_tryEnhance (mode u f : jsstring) :
  yields cutPreviewOpt (AIEnhancer.tryEnhance mode u f).
Proof.
  unfold AIEnhancer.tryEnhance.
  destruct (str_eqb mode (lit "auto")).
  - apply yields_bind. intros st.
    destruct (fst st && (0 <? length (snd st))).
    + apply yields_some, yields_callOllamaAPI.
    + apply yields_bind. intros d. destruct (canEnhance d).
      * apply yields_some, yields_enhanceWithProvider.
      * now apply yields_ret.
  - destruct (str_eqb mode (lit "manual")).
    + apply yields_some, yields_enhanceWithManualAPI.
    + now apply yields_ret.
Qed.

Lemma yields_enhance (u f : jsstring) : yields cutPreview (AIEnhancer.enhance u f).
Proof.
  unfold AIEnhancer.enhance. apply yields_bind. intros mode.
  destruct (str_eqb mode (lit "ruleOnly")).
  - apply yields_ret, cutPreview_mkPrompt.
  - intros w. rewrite run_bind, run_tryCatch.
    pose proof (yields_tryEnhance mode u f w) as P.
    destruct (fst (AIEnhancer.tryEnhance mode u f w)) as [[r|] | e];
      cbn [fst snd]; try exact P; apply cutPreview_mkPrompt.
Qed.

(** [enhance] never raises to its caller. *)
Lemma total_enhance (u f : jsstring) : total (AIEnhancer.enhance u f).
Proof.
  unfold AIEnhancer.enhance, configGet, consoleError. total_tac.
Qed.

(** C4 (as amended).  The rule engine cuts a prompt of more than 200
    characters to its first 200 characters and appends three dots (203
    characters, the first 200 of them a prefix of the prompt) and keeps a
    shorter prompt whole; the AI enhancer always returns, and its preview
    is the first 200 characters of its prompt, with no dots. *)
Theorem preview_truncation :
  (forall req : PromptRequest,
      let r := enhance req in
      (200 < length (prompt r) ->
       preview r = firstn 200 (prompt r) ++ lit "..."
       /\ length (preview r) = 203
       /\ firstn 200 (preview r) = firstn 200 (prompt r))
      /\ (length (prompt r) <= 200 -> preview r = prompt r))
  /\ (forall (userInput ruleBasedPrompt : jsstring) (w : World),
        exists r,
          fst (AIEnhancer.enhance userInput ruleBasedPrompt w) = Returns r
          /\ preview r = firstn 200 (prompt r)
          /\ (length (prompt r) <= 200 -> preview r = prompt r)).
Proof.
  split; [exact rule_preview|]. intros u f w.
  destruct (total_enhance u f w) as [r Hr]. exists r. split; [exact Hr|].
  pose proof (yields_enhance u f w) as P. rewrite Hr in P.
  split; [exact P|]. intros Hl. rewrite P. now apply firstn_all2.
Qed.

(** C4 fails as stated: the preview of the rule engine ends with three
    dots, so it is no prefix of the prompt; the preview of the AI enhancer
    has no dots, so it is 200 characters long, not 203. *)
Lemma preview_truncation_counterexample :
  ~ previewBySpec (enhance (request IFix "button not work when click"))
  /\ (exists r,
        fst (AIEnhancer.enhance (lit "x") (repeat (Latin "a"%char) 201)
               (world (settings (given "ruleOnly") unset unset) unreachable))
        = Returns r
        /\ length (prompt r) = 201 /\ length (preview r) = 200
        /\ ~ previewBySpec r).
Proof.
  split.
  - unfold previewBySpec. intros [H _].
    assert (Hl : 200 < length (prompt (enhance (request IFix "button not work when click"))))
      by (vm_compute; lia).
    destruct (H Hl) as [_ Hp]. vm_compute in Hp. discriminate.
  - eexists. split; [reflexivity|]. split; [reflexivity|]. split; [reflexivity|].
    unfold previewBySpec. intros [H _].
    assert (Hl : 200 < 201) by lia. destruct (H Hl) as [Hp _].
    vm_compute in Hp. discriminate.
Qed.

(* ===================================================================== *)
(** * The catalog, looked up *)
(* ===================================================================== *)

Lemma distinct_NoDup (l : list jsstring) : distinct l = true -> NoDup l.
Proof.
  induction l as [|x l IH]; simpl; [constructor|].
  rewrite andb_true_iff, negb_true_iff. intros [Hx Hl].
  constructor; [|auto]. intros Hin.
  assert (E : existsb (str_eqb x) l = true).
  { apply existsb_exists. exists x. split; [assumption|].
    now apply str_eqb_true. }
  congruence.
Qed.

Lemma find_by_key (A : Type) (key : A -> jsstring) (l : list A) (t : A) :
  NoDup (map key l) -> In t l ->
  find (fun x => str_eqb (key x) (key t)) l = Some t.
Proof.
  induction l as [|x l IH]; simpl; [contradiction|].
  intros Hn [-> | Hin].
  - now rewrite (proj2 (str_eqb_true (key t) (key t)) eq_refl).
  - inversion Hn as [|? ? Hx Hl]; subst.
    destruct (str_eqb (key x) (key t)) eqn:E; [|auto].
    apply str_eqb_true in E. exfalso. apply Hx. rewrite E.
    now apply in_map.
Qed.

(** X1.  The identifiers of the catalog are pairwise different, so
    [getTemplateById] gives back every template of the catalog from its
    own identifier; what it finds is a template of the catalog with the
    identifier asked for, and it finds nothing exactly when no template
    carries the identifier. *)
Theorem getTemplateById_round_trip :
  NoDup (map id PROMPT_TEMPLATES)
  /\ (forall t, In t PROMPT_TEMPLATES -> getTemplateById (id t) = Some t)
  /\ (forall i t, getTemplateById i = Some t ->
                  In t PROMPT_TEMPLATES /\ id t = i)
  /\ (forall i, getTemplateById i = None
                <-> forall t, In t PROMPT_TEMPLATES -> id t <> i).
Proof.
  assert (Hn : NoDup (map id PROMPT_TEMPLATES)).
  { apply distinct_NoDup. vm_compute. reflexivity. }
  split; [exact Hn|]. split; [|split].
  - intros t Ht. unfold getTemplateById. now apply find_by_key.
  - intros i t H. unfold getTemplateById in H. apply find_some in H.
    destruct H as [Hin He]. apply str_eqb_true in He. auto.
  - intros i. unfold getTemplateById. split.
    + intros H t Ht E.
      pose proof (find_none _ _ H t Ht) as F. cbv beta in F.
      rewrite (proj2 (str_eqb_true _ _) E) in F. discriminate.
    + intros H.
      destruct (find (fun t => str_eqb (id t) i) PROMPT_TEMPLATES) as [t|] eqn:E;
        [|reflexivity].
      apply find_some in E. destruct E as [Hin He].
      apply str_eqb_true in He. now destruct (H t Hin).
Qed.

(** X2.  Every intent has a template: [getTemplatesByIntent] returns, in
    catalog order, exactly the templates of the intent, at least one for
    each of the eight intents, so that [enhance] always fills a template
    and never builds its prompt from the fallback text. *)
Theorem every_intent_has_a_template :
  (forall i t, In t (getTemplatesByIntent i)
               <-> In t PROMPT_TEMPLATES /\ tintent t = i)
  /\ (forall i, exists tpl rest, getTemplatesByIntent i = tpl :: rest)
  /\ (forall req, exists tpl rest,
         getTemplatesByIntent (intent req) = tpl :: rest
         /\ prompt (enhance req)
            = fillTemplate (template tpl) (descriptionOf req)
                (formatContext req)
              ++ relatedConcepts (hintsOf req)).
Proof.
  split; [|split].
  - intros i t. unfold getTemplatesByIntent. rewrite filter_In.
    split; intros [H1 H2]; split; auto.
    + now apply intent_eqb_true.
    + now apply intent_eqb_true.
  - intros i. destruct i; eexists; eexists; reflexivity.
  - intros req. destruct (chosenTemplate_total (intent req)) as [tpl Ht].
    unfold chosenTemplate in Ht.
    destruct (getTemplatesByIntent (intent req)) as [|t rest] eqn:E;
      [discriminate|].
    injection Ht as ->. exists tpl, rest. split; [reflexivity|].
    rewrite enhance_prompt, E. unfold buildPrompt. reflexivity.
Qed.

(* ===================================================================== *)
(** * The rule engine, further *)
(* ===================================================================== *)





Lemma formatContext_visible (i : TaskIntent) (u : jsstring)
      (ctx : PromptContext) (inc : IncludeContext) :
  formatContext {| intent := i; userInput := u; context := visible inc ctx;
                   includeContext := inc |}
  = formatContext {| intent := i; userInput := u; context := ctx;
                     includeContext := inc |}.
Proof.
  unfold formatContext, visible. cbn [context includeContext fileName language
    selectedCode projectStructure gitStatus].
  destruct inc as [[] [] [] []]; cbn [file selection project git orb andb];
    reflexivity.
Qed.

Lemma enhance_by_context (r1 r2 : PromptRequest) :
  intent r1 = intent r2 -> userInput r1 = userInput r2 ->
  formatContext r1 = formatContext r2 ->
  enhance r1 = enhance r2.
Proof.
  intros Hi Hu Hc.
  cbv delta [enhance enhanceWith] beta zeta.
  now rewrite Hi, Hu, Hc.
Qed.

(** X4.  A field of the context whose flag is off never reaches the
    result of [enhance], and the path of the file and the related files
    never do: the result is the one of the request whose context holds
    the flagged fields only.  [quickEnhance] sets the flags of the file
    and of the selection, so its result does not change with the project
    structure, the git status, the path or the related files. *)
Theorem enhance_sees_flagged_context_only :
  (forall (i : TaskIntent) (u : jsstring) (ctx : PromptContext)
          (inc : IncludeContext),
      enhance {| intent := i; userInput := u; context := ctx;
                 includeContext := inc |}
      = enhance {| intent := i; userInput := u; context := visible inc ctx;
                   includeContext := inc |})
  /\ (forall (u : jsstring) (i : TaskIntent) (ctx : PromptContext)
             (path structure status : option jsstring)
             (related : option (list jsstring)),
         quickEnhance u i
           {| fileName := fileName ctx; filePath := path;
              language := language ctx; selectedCode := selectedCode ctx;
              projectStructure := structure; gitStatus := status;
              relatedFiles := related |}
         = quickEnhance u i ctx).
Proof.
  split.
  - intros i u ctx inc. apply enhance_by_context; try reflexivity.
    symmetry. apply formatContext_visible.
  - intros u i ctx path structure status related. unfold quickEnhance.
    apply enhance_by_context; reflexivity.
Qed.

Lemma join_nonempty (sep x : jsstring) (rest : list jsstring) :
  x <> [] -> join sep (x :: rest) <> [].
Proof.
  intros Hx. destruct x as [|c x]; [congruence|].
  destruct rest; simpl; discriminate.
Qed.

(** X5.  The context block is empty exactly when nothing is rendered: no
    flag is on with a non-empty field behind it.  A flag alone, or a field
    alone, renders nothing. *)
Theorem formatContext_empty_iff (req : PromptRequest) :
  formatContext req = [] <-> rendersSomething req = false.
Proof.
  unfold rendersSomething, formatContext. cbv zeta.
  destruct (includeContext req) as [[] [] [] []];
    cbn [file selection project git andb orb];
    destruct (context req) as [fn fp lang code ps gs rf];
    cbn [fileName language selectedCode projectStructure gitStatus];
    destruct fn as [[|? ?]|]; destruct code as [[|? ?]|];
    destruct ps as [[|? ?]|]; destruct gs as [[|? ?]|];
    cbn [truthyOpt truthy andb orb app];
    try (split; [reflexivity | reflexivity]);
    try (split; intros H; [|discriminate H];
         exfalso; revert H;
         repeat match goal with
                | |- context [if ?b then _ else _] => destruct b
                end;
         cbn [app]; apply join_nonempty; discriminate).
Qed.

(** X6.  The hints grow with the input: a term hinted for a text is
    hinted for every text that contains it, whatever is written before
    and behind. *)
Theorem hints_grow_with_input (before input behind t : jsstring) :
  In t (termsAdded (addTechnicalTerms input)) ->
  In t (termsAdded (addTechnicalTerms (before ++ input ++ behind))).
Proof.
  unfold addTechnicalTerms. cbn [termsAdded]. rewrite !unique_in.
  rewrite !pushedTerms_in. intros (m & Hm & (kw & a & b & Hkw & E) & Ht).
  exists m. split; [exact Hm|]. split; [|exact Ht].
  exists kw, (toLowerCase before ++ a), (b ++ toLowerCase behind).
  split; [exact Hkw|].
  unfold toLowerCase in *. rewrite !map_app, E. now rewrite <- !app_assoc.
Qed.

Lemma hints_grow_with_input_witness :
  In (lit "onClick event") (termsAdded (addTechnicalTerms (lit "click")))
  /\ In (lit "onClick event")
        (termsAdded (addTechnicalTerms
                       (lit "the button does not " ++ lit "click"
                          ++ lit " anymore"))).
Proof.
  assert (H : In (lit "onClick event") (termsAdded (addTechnicalTerms (lit "click")))).
  { vm_compute. tauto. }
  split; [exact H|].
  exact (hints_grow_with_input (lit "the button does not ") (lit "click")
           (lit " anymore") (lit "onClick event") H).
Defined.

(* ===================================================================== *)
(** * The requests of the AI enhancer *)
(* ===================================================================== *)

Lemma issued_app (w w' : World) (l : list Request) :
  calls w' = calls w ++ l -> issued w w' = l.
Proof.
  intros H. unfold issued. rewrite H, skipn_app, skipn_all, Nat.sub_diag.
  reflexivity.
Qed.

Lemma host_endpointOf (w w' : World) :
  host w' = host w -> endpointOf w' = endpointOf w.
Proof. intros H. unfold endpointOf. now rewrite (host_config _ _ H). Qed.

Lemma host_manualRequests (w w' : World) (u : jsstring) :
  host w' = host w -> manualRequests w' u = manualRequests w u.
Proof.
  intros H. unfold manualRequests, providerOf, apiKeyOf, endpointOf, modelOf.
  now rewrite (host_config _ _ H).
Qed.

Ltac world_simpl :=
  cbn [config now env net calls probes console detector enhancer
       setCalls setProbes setConsole setDetector setEnhancer fst snd].

(** [callOllamaAPI] sends one request, whatever comes back. *)
Lemma callOllamaAPI_run (u : jsstring) (w : World) :
  let w' := snd (AIEnhancer.callOllamaAPI u w) in
  calls w' = calls w ++ [PostGenerate (endpointOf w) (modelOf w) u]
  /\ aside w' = aside w.
Proof.
  cbv zeta.
  unfold AIEnhancer.callOllamaAPI, bind, tryCatch, configGet, get, fetch,
    consoleError, modify, throw, ret, readField, aside.
  world_simpl. fold (endpointOf w) (modelOf w).
  destruct (net w (length (calls w))
              (PostGenerate (endpointOf w) (modelOf w) u)) as [|r];
    world_simpl; [auto|].
  destruct (ok r); cbn [negb]; world_simpl; [|auto].
  destruct (text r); world_simpl; auto.
Qed.

Lemma callAnthropicAPI_run (u k : jsstring) (w : World) :
  let w' := snd (AIEnhancer.callAnthropicAPI u k w) in
  calls w' = calls w ++ [PostAnthropic k u] /\ aside w' = aside w.
Proof.
  cbv zeta.
  unfold AIEnhancer.callAnthropicAPI, bind, fetch, throw, ret, readField, aside.
  destruct (net w (length (calls w)) (PostAnthropic k u)) as [|r];
    world_simpl; [auto|].
  destruct (ok r); cbn [negb]; world_simpl; [|auto].
  destruct (text r); world_simpl; auto.
Qed.

Lemma callOpenAIAPI_run (u k : jsstring) (w : World) :
  let w' := snd (AIEnhancer.callOpenAIAPI u k w) in
  calls w' = calls w ++ [PostOpenAI k u] /\ aside w' = aside w.
Proof.
  cbv zeta.
  unfold AIEnhancer.callOpenAIAPI, bind, fetch, throw, ret, readField, aside.
  destruct (net w (length (calls w)) (PostOpenAI k u)) as [|r];
    world_simpl; [auto|].
  destruct (ok r); cbn [negb]; world_simpl; [|auto].
  destruct (text r); world_simpl; auto.
Qed.

(** [enhanceWithManualAPI] sends the request of the settings and nothing
    else; a result marked as AI enhanced comes from a request. *)
Lemma enhanceWithManualAPI_run (u f : jsstring) (w : World) :
  let w' := snd (AIEnhancer.enhanceWithManualAPI u f w) in
  calls w' = calls w ++ manualRequests w u
  /\ aside w' = aside w
  /\ (forall r, fst (AIEnhancer.enhanceWithManualAPI u f w) = Returns r ->
                wasAiEnhanced r = true -> manualRequests w u <> []).
Proof.
  cbv zeta. unfold AIEnhancer.enhanceWithManualAPI, manualRequests.
  rewrite run_bind. unfold configGet, get. cbn [fst snd].
  fold (providerOf w).
  destruct (str_eqb (providerOf w) (lit "ollama")) eqn:Eo.
  { destruct (callOllamaAPI_run u w) as [Hc Ha].
    split; [exact Hc|]. split; [exact Ha|]. discriminate. }
  rewrite run_bind. unfold configGet, get. cbn [fst snd].
  fold (apiKeyOf w).
  destruct (truthy (apiKeyOf w)) eqn:Ek; cbn [negb].
  2:{ unfold ret. cbn [fst snd]. rewrite app_nil_r.
      split; [reflexivity|]. split; [reflexivity|].
      intros r [= <-]. discriminate. }
  rewrite run_tryCatch.
  destruct (str_eqb (providerOf w) (lit "anthropic")) eqn:Ea.
  { destruct (callAnthropicAPI_run u (apiKeyOf w) w) as [Hc Ha].
    destruct (fst (AIEnhancer.callAnthropicAPI u (apiKeyOf w) w)) as [r|e];
      cbn [fst snd].
    - split; [exact Hc|]. split; [exact Ha|]. discriminate.
    - unfold bind, consoleError, modify, ret, aside in *. world_simpl.
      split; [exact Hc|]. split; [exact Ha|]. discriminate. }
  destruct (str_eqb (providerOf w) (lit "openai")) eqn:Ep.
  { destruct (callOpenAIAPI_run u (apiKeyOf w) w) as [Hc Ha].
    destruct (fst (AIEnhancer.callOpenAIAPI u (apiKeyOf w) w)) as [r|e];
      cbn [fst snd].
    - split; [exact Hc|]. split; [exact Ha|]. discriminate.
    - unfold bind, consoleError, modify, ret, aside in *. world_simpl.
      split; [exact Hc|]. split; [exact Ha|]. discriminate. }
  unfold throw, bind, consoleError, modify, ret, aside. world_simpl.
  rewrite app_nil_r. split; [reflexivity|]. split; [reflexivity|].
  intros r [= <-]. discriminate.
Qed.

Ltac tags_done :=
  eexists; split; [rewrite <- ?app_assoc; reflexivity|];
  split; [repeat constructor; auto | split; reflexivity].

(** [checkOllama] asks the configured endpoint for its tags, once or
    twice, and touches neither the probes nor the detector. *)
Lemma checkOllama_run (w : World) :
  let w' := snd (AIEnhancer.checkOllama w) in
  exists tags,
    calls w' = calls w ++ tags
    /\ Forall (tagsRequest w) tags
    /\ probes w' = probes w /\ detector w' = detector w.
Proof.
  cbv zeta.
  unfold AIEnhancer.checkOllama, AIEnhancer.isOllamaRunning,
    AIEnhancer.getOllamaModels, AIEnhancer.setAvailable, AIEnhancer.setModels,
    bind, tryCatch, configGet, get, modify, fetch, ret, readField.
  world_simpl. fold (endpointOf w).
  assert (T : forall b, tagsRequest w (GetTags (endpointOf w) b))
    by (intros b; now exists b).
  destruct (net w (length (calls w)) (GetTags (endpointOf w) true)) as [|r1];
    world_simpl; [tags_done|].
  destruct (ok r1); world_simpl; [|tags_done].
  match goal with
  | |- context [net w ?n ?q] => destruct (net w n q) as [|r2]
  end; world_simpl; [tags_done|].
  destruct (ok r2); cbn [negb]; world_simpl; [|tags_done].
  destruct (models r2); unfold throw; world_simpl; tags_done.
Qed.

(** The detector sends nothing and leaves the enhancer alone. *)
Lemma detect_run (forceRefresh : bool) (w : World) :
  let w' := snd (LLMDetector.detect forceRefresh w) in
  calls w' = calls w /\ enhancer w' = enhancer w.
Proof.
  cbv zeta. unfold LLMDetector.detect, bind, get. cbn [fst snd].
  destruct (LLMDetector.cacheHit forceRefresh (now w) (detector w));
    [split; reflexivity|].
  destruct (runDetection_probes w) as (r & l & ->).
  split; reflexivity.
Qed.

Lemma enhanceWithProvider_run (p : LLMProvider) (u f : jsstring) (w : World) :
  let w' := snd (AIEnhancer.enhanceWithProvider p u f w) in
  exists gen,
    calls w' = calls w ++ gen
    /\ (gen = [] \/ gen = manualRequests w u)
    /\ aside w' = aside w
    /\ (forall r, fst (AIEnhancer.enhanceWithProvider p u f w) = Returns r ->
                  wasAiEnhanced r = true -> gen <> []).
Proof.
  cbv zeta.
  destruct (enhanceWithManualAPI_run u f w) as (Hc & Ha & Hr).
  destruct p; cbn [AIEnhancer.enhanceWithProvider];
    first
      [ solve [ exists (manualRequests w u); split; [exact Hc|];
                split; [now right|]; split; [exact Ha | exact Hr] ]
      | exists []; unfold ret; cbn [fst snd]; rewrite app_nil_r;
        split; [reflexivity|]; split; [now left|]; split; [reflexivity|];
        intros r [= <-]; discriminate ].
Qed.

(** The [try] block of [enhance]: tag requests first, then at most one
    generation request; a result marked as AI enhanced comes from a
    generation request. *)
Lemma tryEnhance_run (mode u f : jsstring) (w : World) :
  let w' := snd (AIEnhancer.tryEnhance mode u f w) in
  exists tags gen,
    calls w' = calls w ++ tags ++ gen
    /\ Forall (tagsRequest w) tags
    /\ (gen = [] \/ gen = [PostGenerate (endpointOf w) (modelOf w) u]
        \/ gen = manualRequests w u)
    /\ (mode = lit "manual" ->
        tags = [] /\ gen = manualRequests w u /\ aside w' = aside w)
    /\ (forall r, fst (AIEnhancer.tryEnhance mode u f w) = Returns (Some r) ->
                  wasAiEnhanced r = true -> gen <> []).
Proof.
  cbv zeta. unfold AIEnhancer.tryEnhance.
  destruct (str_eqb mode (lit "auto")) eqn:Ea.
  - apply str_eqb_true in Ea.
    rewrite run_bind. destruct (total_checkOllama w) as [st ->].
    destruct (checkOllama_run w) as (tags & Hc1 & Ht & Hp1 & Hd1).
    pose proof (keeps_checkOllama w) as K1.
    set (w1 := snd (AIEnhancer.checkOllama w)) in *.
    destruct (fst st && (0 <? length (snd st))).
    + rewrite run_bind.
      destruct (callOllamaAPI_run u w1) as [Hc2 Ha2].
      exists tags, [PostGenerate (endpointOf w) (modelOf w) u].
      assert (Hc : calls (snd (AIEnhancer.callOllamaAPI u w1))
                   = calls w ++ tags
                     ++ [PostGenerate (endpointOf w) (modelOf w) u]).
      { rewrite Hc2, Hc1, <- app_assoc.
        unfold endpointOf, modelOf. now rewrite (host_config _ _ K1). }
      destruct (fst (AIEnhancer.callOllamaAPI u w1)) as [r|e]; cbn [fst snd];
        (split; [exact Hc|]; split; [exact Ht|]; split; [auto|];
         split; [intros ->; discriminate | discriminate]).
    + rewrite run_bind. destruct (total_detect false w1) as [d ->].
      destruct (detect_run false w1) as [Hc2 _].
      pose proof (keeps_detect false w1) as K2.
      set (w2 := snd (LLMDetector.detect false w1)) in *.
      assert (K : host w2 = host w) by congruence.
      destruct (canEnhance d).
      * rewrite run_bind.
        destruct (enhanceWithProvider_run (provider d) u f w2)
          as (gen & Hc3 & Hg & _ & Hr).
        exists tags, gen.
        assert (Hc : calls (snd (AIEnhancer.enhanceWithProvider (provider d) u f w2))
                     = calls w ++ tags ++ gen).
        { now rewrite Hc3, Hc2, Hc1, <- app_assoc. }
        rewrite (host_manualRequests _ _ u K) in Hg.
        destruct (fst (AIEnhancer.enhanceWithProvider (provider d) u f w2))
          as [r|e]; cbn [fst snd];
          (split; [exact Hc|]; split; [exact Ht|];
           split; [destruct Hg; auto|]; split; [intros ->; discriminate|]).
        -- intros r0 [= <-]. now apply Hr.
        -- discriminate.
      * exists tags, []. unfold ret. cbn [fst snd]. rewrite app_nil_r.
        split; [now rewrite Hc2|]. split; [exact Ht|]. split; [auto|].
        split; [intros ->; discriminate | discriminate].
  - destruct (str_eqb mode (lit "manual")) eqn:Em.
    + rewrite run_bind.
      destruct (enhanceWithManualAPI_run u f w) as (Hc & Ha & Hr).
      exists [], (manualRequests w u).
      destruct (fst (AIEnhancer.enhanceWithManualAPI u f w)) as [r|e];
        cbn [fst snd app];
        (split; [exact Hc|]; split; [constructor|]; split; [auto|];
         split; [auto|]).
      * intros r0 [= <-]. now apply Hr.
      * discriminate.
    + exists [], []. unfold ret. cbn [fst snd app]. rewrite app_nil_r.
      split; [reflexivity|]. split; [constructor|]. split; [auto|].
      split; [|discriminate].
      intros ->. discriminate.
Qed.

(** The requests of [enhance]: tag requests to the configured endpoint,
    then at most one generation request. *)
Lemma enhance_run (u f : jsstring) (w : World) :
  let w' := snd (AIEnhancer.enhance u f w) in
  exists tags gen,
    calls w' = calls w ++ tags ++ gen
    /\ Forall (tagsRequest w) tags
    /\ (gen = [] \/ gen = [PostGenerate (endpointOf w) (modelOf w) u]
        \/ gen = manualRequests w u)
    /\ (modeOf w = lit "manual" ->
        tags = [] /\ gen = manualRequests w u /\ aside w' = aside w)
    /\ (forall r, fst (AIEnhancer.enhance u f w) = Returns r ->
                  wasAiEnhanced r = true -> gen <> []).
Proof.
  cbv zeta. unfold AIEnhancer.enhance. rewrite run_bind.
  unfold configGet, get. cbn [fst snd]. fold (modeOf w).
  destruct (str_eqb (modeOf w) (lit "ruleOnly")) eqn:Er.
  { apply str_eqb_true in Er. exists [], []. unfold ret. cbn [fst snd app].
    rewrite app_nil_r. split; [reflexivity|]. split; [constructor|].
    split; [auto|]. split; [rewrite Er; discriminate|].
    intros r [= <-]. discriminate. }
  rewrite run_bind, run_tryCatch.
  destruct (tryEnhance_run (modeOf w) u f w)
    as (tags & gen & Hc & Ht & Hg & Hm & Hr).
  exists tags, gen.
  destruct (fst (AIEnhancer.tryEnhance (modeOf w) u f w)) as [[r|] | e];
    unfold bind, consoleError, modify, ret, aside in *; world_simpl;
    (split; [exact Hc|]; split; [exact Ht|]; split; [exact Hg|];
     split; [exact Hm|]).
  - intros r0 [= <-]. now apply Hr.
  - intros r0 [= <-]. discriminate.
  - intros r0 [= <-]. discriminate.
Qed.

Lemma manualRequests_addressed (w : World) (u : jsstring) :
  Forall (addressed w u) (manualRequests w u)
  /\ length (manualRequests w u) <= 1.
Proof.
  unfold manualRequests.
  destruct (str_eqb (providerOf w) (lit "ollama"));
    [split; [repeat constructor | simpl; lia]|].
  destruct (truthy (apiKeyOf w)) eqn:Ek; cbn [negb];
    [|split; [constructor | simpl; lia]].
  assert (Hk : apiKeyOf w <> []) by (destruct (apiKeyOf w); discriminate).
  destruct (str_eqb (providerOf w) (lit "anthropic")) eqn:Ea.
  { apply str_eqb_true in Ea. split; [|simpl; lia].
    repeat constructor; auto. }
  destruct (str_eqb (providerOf w) (lit "openai")) eqn:Ep.
  { apply str_eqb_true in Ep. split; [|simpl; lia].
    repeat constructor; auto. }
  split; [constructor | simpl; lia].
Qed.

(** X7.  What [enhance] sends: requests for the tags of the configured
    Ollama endpoint, then at most one generation request, the last of
    the call.  That request goes where the settings point: to the
    configured endpoint and model of Ollama, or with the configured key to
    the cloud provider the settings name and to no other one, and it
    carries the user input. *)
Theorem enhance_requests_follow_settings (userInput ruleBasedPrompt : jsstring)
        (w : World) :
  exists tags gen,
    issued w (snd (AIEnhancer.enhance userInput ruleBasedPrompt w))
    = tags ++ gen
    /\ Forall (tagsRequest w) tags
    /\ Forall (addressed w userInput) gen
    /\ length gen <= 1.
Proof.
  destruct (enhance_run userInput ruleBasedPrompt w)
    as (tags & gen & Hc & Ht & Hg & _ & _).
  exists tags, gen. split; [now apply issued_app|]. split; [exact Ht|].
  destruct Hg as [-> | [-> | ->]].
  - split; [constructor | simpl; lia].
  - split; [repeat constructor | simpl; lia].
  - apply manualRequests_addressed.
Qed.

(** X8.  A result marked as AI enhanced comes from a backend: when
    [enhance] returns a result with [wasAiEnhanced = true], the last
    request of the call was a generation request. *)
Theorem ai_result_needs_generation (userInput ruleBasedPrompt : jsstring)
        (w : World) (r : EnhancedPrompt) :
  fst (AIEnhancer.enhance userInput ruleBasedPrompt w) = Returns r ->
  wasAiEnhanced r = true ->
  exists before q,
    issued w (snd (AIEnhancer.enhance userInput ruleBasedPrompt w))
    = before ++ [q]
    /\ isGeneration q = true.
Proof.
  intros Hr Hai.
  destruct (enhance_run userInput ruleBasedPrompt w)
    as (tags & gen & Hc & _ & Hg & _ & Hgen).
  specialize (Hgen r Hr Hai). apply issued_app in Hc. rewrite Hc.
  destruct Hg as [-> | [-> | E]]; [congruence | |].
  - eexists; eexists; split; reflexivity.
  - destruct (manualRequests_addressed w userInput) as [Ha Hl].
    rewrite <- E in Ha, Hl.
    destruct gen as [|q [|q' gen]]; [congruence | | simpl in Hl; lia].
    exists tags, q. split; [reflexivity|].
    inversion Ha as [|? ? Hq _]; subst. destruct q; [destruct Hq | | |];
      reflexivity.
Qed.

Lemma ai_result_needs_generation_witness :
  let w := world (settings (given "manual") (given "openai") (given "key"))
                 (answering "Better.") in
  exists r,
    fst (AIEnhancer.enhance (lit "btn broken") (lit "Fix the button.") w)
    = Returns r
    /\ wasAiEnhanced r = true
    /\ exists before q,
        issued w (snd (AIEnhancer.enhance (lit "btn broken")
                         (lit "Fix the button.") w))
        = before ++ [q]
        /\ isGeneration q = true.
Proof.
  cbv zeta. eexists. split; [vm_compute; reflexivity|].
  split; [reflexivity|].
  apply (ai_result_needs_generation (lit "btn broken") (lit "Fix the button.")
           (world (settings (given "manual") (given "openai") (given "key"))
                  (answering "Better."))
           {| prompt := lit "Better."; preview := lit "Better.";
              wasAiEnhanced := true |});
    vm_compute; reflexivity.
Defined.

(** X9.  In the mode [manual], [enhance] does not look for Ollama and
    does not consult the detector: it sends the one request of the
    settings, or none when the key is missing or the provider unknown,
    and leaves the probes and both caches as they were. *)
Theorem manual_mode_sends_one_request (userInput ruleBasedPrompt : jsstring)
        (w : World) :
  modeOf w = lit "manual" ->
  let w' := snd (AIEnhancer.enhance userInput ruleBasedPrompt w) in
  issued w w' = manualRequests w userInput
  /\ probes w' = probes w
  /\ detector w' = detector w
  /\ enhancer w' = enhancer w.
Proof.
  intros Hm. cbv zeta.
  destruct (enhance_run userInput ruleBasedPrompt w)
    as (tags & gen & Hc & _ & _ & Hman & _).
  destruct (Hman Hm) as (-> & -> & Ha). cbn [app] in Hc.
  split; [now apply issued_app|].
  unfold aside in Ha. now inversion Ha.
Qed.

Lemma manual_mode_sends_one_request_witness :
  let w := world (settings (given "manual") (given "anthropic") (given "key"))
                 serverError in
  let w' := snd (AIEnhancer.enhance (lit "btn broken") (lit "Fix the button.") w) in
  modeOf w = lit "manual"
  /\ issued w w' = [PostAnthropic (lit "key") (lit "btn broken")]
  /\ issued w w' = manualRequests w (lit "btn broken")
  /\ probes w' = probes w
  /\ detector w' = detector w
  /\ enhancer w' = enhancer w.
Proof.
  cbv zeta. split; [reflexivity|]. split; [vm_compute; reflexivity|].
  apply (manual_mode_sends_one_request (lit "btn broken") (lit "Fix the button.")
           (world (settings (given "manual") (given "anthropic") (given "key"))
                  serverError)).
  reflexivity.
Defined.

(* ===================================================================== *)
(** * Ollama *)
(* ===================================================================== *)

Lemma checkOllama_serves (w : World) (ms : list jsstring) :
  ollamaServes w ms ->
  let w' := snd (AIEnhancer.checkOllama w) in
  fst (AIEnhancer.checkOllama w) = Returns (true, ms)
  /\ calls w' = calls w ++ [GetTags (endpointOf w) true;
                            GetTags (endpointOf w) false]
  /\ probes w' = probes w /\ detector w' = detector w.
Proof.
  intros H. cbv zeta.
  unfold AIEnhancer.checkOllama, AIEnhancer.isOllamaRunning,
    AIEnhancer.getOllamaModels, AIEnhancer.setAvailable, AIEnhancer.setModels,
    bind, tryCatch, configGet, get, modify, fetch, ret, readField.
  world_simpl. fold (endpointOf w).
  destruct (H (length (calls w)) true) as (r1 & -> & -> & _). world_simpl.
  match goal with
  | |- context [net w ?n (GetTags ?e false)] =>
    destruct (H n false) as (r2 & -> & -> & ->)
  end.
  cbn [negb]. world_simpl. cbn [ollamaModels].
  rewrite <- app_assoc. repeat split.
Qed.

(** X10.  In the mode [auto], an Ollama that runs with at least one model
    is used before anything else: [enhance] asks twice for the tags and
    sends its generation request to Ollama, whatever the manual provider
    and the key of the settings are, and the detector is not consulted. *)
Theorem auto_mode_prefers_ollama (userInput ruleBasedPrompt : jsstring)
        (w : World) (ms : list jsstring) :
  modeOf w = lit "auto" -> ollamaServes w ms -> ms <> [] ->
  let w' := snd (AIEnhancer.enhance userInput ruleBasedPrompt w) in
  issued w w' = [GetTags (endpointOf w) true; GetTags (endpointOf w) false;
                 PostGenerate (endpointOf w) (modelOf w) userInput]
  /\ probes w' = probes w
  /\ detector w' = detector w.
Proof.
  intros Hm Hs Hne. cbv zeta.
  unfold AIEnhancer.enhance. rewrite run_bind.
  unfold configGet, get. cbn [fst snd]. fold (modeOf w). rewrite Hm.
  change (str_eqb (lit "auto") (lit "ruleOnly")) with false. cbv iota.
  rewrite run_bind, run_tryCatch.
  unfold AIEnhancer.tryEnhance.
  change (str_eqb (lit "auto") (lit "auto")) with true. cbv iota.
  rewrite run_bind.
  destruct (checkOllama_serves w ms Hs) as (-> & Hc1 & Hp1 & Hd1).
  pose proof (keeps_checkOllama w) as K1.
  set (w1 := snd (AIEnhancer.checkOllama w)) in *.
  cbn [fst snd andb].
  assert (Hl : (0 <? length ms) = true)
    by (destruct ms; [congruence | reflexivity]).
  rewrite Hl. rewrite run_bind.
  destruct (callOllamaAPI_run userInput w1) as [Hc2 Ha2].
  assert (Hc : calls (snd (AIEnhancer.callOllamaAPI userInput w1))
               = calls w ++ [GetTags (endpointOf w) true;
                             GetTags (endpointOf w) false;
                             PostGenerate (endpointOf w) (modelOf w) userInput]).
  { rewrite Hc2, Hc1, <- app_assoc. cbn [app].
    unfold endpointOf, modelOf. now rewrite (host_config _ _ K1). }
  unfold aside in Ha2. inversion Ha2 as [[Hp2 Hd2 He2]].
  destruct (fst (AIEnhancer.callOllamaAPI userInput w1)) as [r|e];
    unfold bind, consoleError, modify, ret; world_simpl;
    (split; [now apply issued_app|]; split; congruence).
Qed.

Lemma auto_mode_prefers_ollama_witness :
  let w := world (settings unset (given "openai") (given "key"))
                 (answering "Better.") in
  let w' := snd (AIEnhancer.enhance (lit "btn broken") (lit "Fix the button.") w) in
  modeOf w = lit "auto"
  /\ ollamaServes w [lit "llama3.2"]
  /\ issued w w'
     = [GetTags (endpointOf w) true; GetTags (endpointOf w) false;
        PostGenerate (endpointOf w) (modelOf w) (lit "btn broken")]
  /\ probes w' = probes w
  /\ detector w' = detector w.
Proof.
  cbv zeta. split; [reflexivity|].
  assert (Hs : ollamaServes
                 (world (settings unset (given "openai") (given "key"))
                        (answering "Better."))
                 [lit "llama3.2"]).
  { intros n b. eexists. split; [reflexivity|]. split; reflexivity. }
  split; [exact Hs|].
  apply (auto_mode_prefers_ollama (lit "btn broken") (lit "Fix the button.")
           (world (settings unset (given "openai") (given "key"))
                  (answering "Better."))
           [lit "llama3.2"]); [reflexivity | exact Hs | discriminate].
Defined.

(** X11.  [checkOllama] resets nothing when Ollama is down: it reports
    [available = false] together with the model list stored by an earlier
    check, and that list stays stored; one request was sent. *)
Theorem checkOllama_reports_stale_models (w : World) :
  ollamaDown w ->
  let w' := snd (AIEnhancer.checkOllama w) in
  fst (AIEnhancer.checkOllama w)
  = Returns (false, ollamaModels (enhancer w))
  /\ enhancer w' = {| ollamaAvailable := Some false;
                      ollamaModels := ollamaModels (enhancer w) |}
  /\ issued w w' = [GetTags (endpointOf w) true].
Proof.
  unfold ollamaDown. intros H. cbv zeta.
  unfold AIEnhancer.checkOllama, AIEnhancer.isOllamaRunning,
    AIEnhancer.getOllamaModels, AIEnhancer.setAvailable, AIEnhancer.setModels,
    bind, tryCatch, configGet, get, modify, fetch, ret, readField, issued.
  world_simpl. fold (endpointOf w).
  destruct (net w (length (calls w)) (GetTags (endpointOf w) true)) as [|r1];
    world_simpl; [|rewrite H; world_simpl];
    cbn [ollamaModels];
    rewrite skipn_app, skipn_all, Nat.sub_diag; repeat split.
Qed.

Lemma checkOllama_reports_stale_models_witness :
  let w := setEnhancer {| ollamaAvailable := Some true;
                          ollamaModels := [lit "llama3.2"] |}
             (world (settings unset unset unset) unreachable) in
  ollamaDown w
  /\ fst (AIEnhancer.checkOllama w) = Returns (false, [lit "llama3.2"]).
Proof.
  cbv zeta. split; [exact I|].
  apply (checkOllama_reports_stale_models
           (setEnhancer {| ollamaAvailable := Some true;
                           ollamaModels := [lit "llama3.2"] |}
              (world (settings unset unset unset) unreachable))).
  exact I.
Defined.

(* ===================================================================== *)
(** * Trimming and cleaning *)
(* ===================================================================== *)

Lemma trimStart_first (s : jsstring) : firstIs isSpace (trimStart s) = false.
Proof.
  induction s as [|c s IH]; simpl; [reflexivity|].
  destruct (isSpace c) eqn:E; [exact IH | exact E].
Qed.

Lemma trimStart_suffix (s : jsstring) : exists pre, s = pre ++ trimStart s.
Proof.
  induction s as [|c s [pre IH]]; simpl; [now exists []|].
  destruct (isSpace c); [|now exists []].
  exists (c :: pre). simpl. now rewrite <- IH.
Qed.

Lemma trimEnd_prefix (s : jsstring) : exists post, s = trimEnd s ++ post.
Proof.
  unfold trimEnd. destruct (trimStart_suffix (rev s)) as [pre H].
  exists (rev pre). rewrite <- rev_app_distr, <- H. now rewrite rev_involutive.
Qed.

Lemma trimEnd_last (s : jsstring) : lastIs isSpace (trimEnd s) = false.
Proof.
  unfold lastIs, trimEnd. rewrite rev_involutive. apply trimStart_first.
Qed.

Lemma trimEnd_first (s : jsstring) :
  firstIs isSpace s = false -> firstIs isSpace (trimEnd s) = false.
Proof.
  intros H. destruct (trimEnd_prefix s) as [post E].
  destruct (trimEnd s) as [|c t] eqn:Et; [reflexivity|].
  rewrite E in H. exact H.
Qed.

Lemma trim_trimmed (s : jsstring) : trimmed (trim s).
Proof.
  unfold trimmed, trim. split.
  - apply trimEnd_first, trimStart_first.
  - apply trimEnd_last.
Qed.

Lemma trimStart_fixed (s : jsstring) :
  firstIs isSpace s = false -> trimStart s = s.
Proof. destruct s as [|c s]; simpl; [reflexivity|]. now intros ->. Qed.

Lemma trim_fixed (s : jsstring) : trimmed s -> trim s = s.
Proof.
  intros [Hf Hl]. unfold trim, trimEnd. rewrite (trimStart_fixed s Hf).
  unfold lastIs in Hl. rewrite (trimStart_fixed _ Hl). apply rev_involutive.
Qed.

Lemma search_nothing (icase : bool) (s : jsstring) (r : regex) (n i : nat) :
  (forall q, matchAt icase s r q = None) -> search icase s r n i = None.
Proof.
  intros H. revert i. induction n as [|n IH]; intros i; simpl; [reflexivity|].
  now rewrite H, IH.
Qed.

Lemma replaceRe_nothing (re : RegExp) (t s : jsstring) :
  (forall q, matchAt (ignoreCase re) s (pattern re) q = None) ->
  replaceRe re t s = s.
Proof.
  intros H. unfold replaceRe, replaceAll, replaceFirst.
  destruct (global re).
  - cbn [replaceLoop]. unfold exec. now rewrite search_nothing.
  - unfold exec. now rewrite search_nothing.
Qed.

Lemma pat_prefix_nothing (s : jsstring) :
  startsWithLit true (lit "Enhanced prompt:") s = false ->
  startsWithLit true (lit "Here's the enhanced prompt:") s = false ->
  startsWithLit true (lit "Output:") s = false ->
  replaceRe AIEnhancer.pat_prefix [] s = s.
Proof.
  intros H1 H2 H3. apply replaceRe_nothing. intros q.
  unfold AIEnhancer.pat_prefix, matchAt. cbn [pattern ignoreCase].
  cbn [rmatch]. destruct q as [|q]; [|reflexivity].
  cbn [Nat.eqb]. rewrite !rmatch_rlit. cbn [skipn].
  now rewrite H1, H2, H3.
Qed.

Lemma pat_quotes_nothing (s : jsstring) :
  firstIs AIEnhancer.isQuote s = false ->
  lastIs AIEnhancer.isQuote s = false ->
  replaceRe AIEnhancer.pat_quotes [] s = s.
Proof.
  intros Hf Hl. apply replaceRe_nothing. intros q.
  unfold AIEnhancer.pat_quotes, matchAt. cbn [pattern ignoreCase].
  cbn [rmatch].
  destruct q as [|q];
    [change (0 =? 0) with true | change (S q =? 0) with false]; cbv iota.
  - destruct s as [|a s]; cbn [nth_error]; [reflexivity|].
    cbn [firstIs] in Hf. rewrite Hf. reflexivity.
  - destruct (nth_error s (S q)) as [a|] eqn:En; [|reflexivity].
    destruct (AIEnhancer.isQuote a) eqn:Ea; [|reflexivity].
    destruct (S (S q) =? length s) eqn:El; [|reflexivity].
    apply Nat.eqb_eq in El.
    rewrite (lastIs_nth _ s (S q) a En El) in Hl. congruence.
Qed.

Lemma cleanUp_clean (s : jsstring) : clean s -> AIEnhancer.cleanUp s = s.
Proof.
  intros (Ht & Hf & Hl & H1 & H2 & H3). unfold AIEnhancer.cleanUp.
  rewrite (pat_prefix_nothing s H1 H2 H3), (pat_quotes_nothing s Hf Hl).
  now apply trim_fixed.
Qed.

(** X12.  A prompt returned by [callOllamaAPI] is marked as AI enhanced
    and has no white space at its ends. *)
Theorem callOllamaAPI_returns_trimmed (userInput : jsstring) (w : World)
        (r : EnhancedPrompt) :
  fst (AIEnhancer.callOllamaAPI userInput w) = Returns r ->
  wasAiEnhanced r = true /\ trimmed (prompt r).
Proof.
  unfold AIEnhancer.callOllamaAPI, bind, tryCatch, configGet, get, fetch,
    consoleError, modify, throw, ret, readField.
  world_simpl.
  match goal with
  | |- context [net w ?n ?q] => destruct (net w n q) as [|resp]
  end; world_simpl; [discriminate|].
  destruct (ok resp); cbn [negb]; world_simpl; [|discriminate].
  destruct (text resp); world_simpl; try discriminate;
    intros [= <-]; (split; [reflexivity|]);
    unfold AIEnhancer.mkPrompt, AIEnhancer.cleanUp; cbn [prompt];
    apply trim_trimmed.
Qed.

Lemma callOllamaAPI_returns_trimmed_witness :
  let w := world (settings unset unset unset) (answering "  'Better.'  ") in
  fst (AIEnhancer.callOllamaAPI (lit "btn broken") w)
  = Returns {| prompt := lit "Better."; preview := lit "Better.";
               wasAiEnhanced := true |}
  /\ trimmed (lit "Better.").
Proof.
  cbv zeta. split; [vm_compute; reflexivity|].
  apply (callOllamaAPI_returns_trimmed (lit "btn broken")
           (world (settings unset unset unset) (answering "  'Better.'  "))
           {| prompt := lit "Better."; preview := lit "Better.";
              wasAiEnhanced := true |}).
  vm_compute. reflexivity.
Defined.

(** X13.  An answer of Ollama that, once trimmed, is not empty and needs
    no cleaning -- no announcement in front, no quote at its ends -- is
    returned as the prompt, character for character. *)
Theorem callOllamaAPI_passes_clean_answer (userInput t : jsstring) (w : World)
        (resp : Response) :
  net w (length (calls w))
      (PostGenerate (endpointOf w) (modelOf w) userInput) = Responds resp ->
  ok resp = true -> text resp = Present t ->
  trim t <> [] -> clean (trim t) ->
  fst (AIEnhancer.callOllamaAPI userInput w)
  = Returns {| prompt := trim t; preview := firstn 200 (trim t);
               wasAiEnhanced := true |}.
Proof.
  intros Hn Hok Ht Hne Hc.
  unfold AIEnhancer.callOllamaAPI, bind, tryCatch, configGet, get, fetch,
    consoleError, modify, throw, ret, readField.
  world_simpl. fold (endpointOf w) (modelOf w). rewrite Hn. world_simpl.
  rewrite Hok, Ht. cbn [negb]. unfold ret. world_simpl. cbn [option_map].
  unfold AIEnhancer.orInput.
  destruct (trim t) as [|c t'] eqn:E; [congruence|]. cbn [truthy].
  unfold AIEnhancer.mkPrompt. now rewrite (cleanUp_clean _ Hc).
Qed.

Lemma callOllamaAPI_passes_clean_answer_witness :
  let w := world (settings unset unset unset) (answering " Fix the button. ") in
  clean (lit "Fix the button.")
  /\ fst (AIEnhancer.callOllamaAPI (lit "btn broken") w)
     = Returns {| prompt := trim (lit " Fix the button. ");
                  preview := firstn 200 (trim (lit " Fix the button. "));
                  wasAiEnhanced := true |}.
Proof.
  cbv zeta.
  assert (Hc : clean (trim (lit " Fix the button. "))).
  { unfold clean, trimmed. repeat split; vm_compute; reflexivity. }
  split; [exact Hc|].
  apply (callOllamaAPI_passes_clean_answer (lit "btn broken")
           (lit " Fix the button. ")
           (world (settings unset unset unset) (answering " Fix the button. "))
           {| ok := true; status := 200;
              text := Present (lit " Fix the button. ");
              models := Present [lit "llama3.2"] |});
    [reflexivity | reflexivity | reflexivity | discriminate | exact Hc].
Defined.

(** X14.  An answer without text does not fail: each backend call then
    returns the user input as the prompt -- cleaned up, in the case of
    Ollama -- and still marks it as AI enhanced. *)
Theorem blank_answer_returns_user_input (userInput key : jsstring) (w : World)
        (resp : Response) :
  (forall q, net w (length (calls w)) q = Responds resp) ->
  blank resp ->
  fst (AIEnhancer.callOllamaAPI userInput w)
  = Returns (AIEnhancer.mkPrompt (AIEnhancer.cleanUp userInput) true)
  /\ fst (AIEnhancer.callAnthropicAPI userInput key w)
     = Returns (AIEnhancer.mkPrompt userInput true)
  /\ fst (AIEnhancer.callOpenAIAPI userInput key w)
     = Returns (AIEnhancer.mkPrompt userInput true).
Proof.
  intros Hn [Hok Hb].
  unfold AIEnhancer.callOllamaAPI, AIEnhancer.callAnthropicAPI,
    AIEnhancer.callOpenAIAPI, bind, tryCatch, configGet, get, fetch,
    consoleError, modify, throw, ret, readField.
  world_simpl. rewrite !Hn. world_simpl. rewrite Hok. cbn [negb].
  destruct Hb as [-> | ->]; unfold ret; world_simpl; repeat split.
Qed.

Lemma blank_answer_returns_user_input_witness :
  let resp := {| ok := true; status := 200; text := Present [];
                 models := Absent |} in
  let w := world (settings unset unset unset) (fun _ _ => Responds resp) in
  blank resp
  /\ fst (AIEnhancer.callAnthropicAPI (lit "btn broken") (lit "key") w)
     = Returns {| prompt := lit "btn broken"; preview := lit "btn broken";
                  wasAiEnhanced := true |}.
Proof.
  cbv zeta. split; [split; [reflexivity | now right]|].
  apply (blank_answer_returns_user_input (lit "btn broken") (lit "key")
           (world (settings unset unset unset)
                  (fun _ _ => Responds {| ok := true; status := 200;
                                          text := Present [];
                                          models := Absent |}))
           {| ok := true; status := 200; text := Present [];
              models := Absent |});
    [reflexivity | split; [reflexivity | now right]].
Defined.

Lemma callOllamaAPI_logs (u : jsstring) (w : World) :
  ollamaFails w ->
  exists e,
    fst (AIEnhancer.callOllamaAPI u w) = Throws e
    /\ console (snd (AIEnhancer.callOllamaAPI u w)) = console w ++ [e].
Proof.
  intros Hf.
  unfold AIEnhancer.callOllamaAPI, bind, tryCatch, configGet, get, fetch,
    consoleError, modify, throw, ret, readField.
  world_simpl.
  match goal with
  | |- context [net w ?n (PostGenerate ?e ?m u)] =>
    specialize (Hf n e m u);
    destruct (net w n (PostGenerate e m u)) as [|r]
  end; world_simpl.
  - eexists. split; reflexivity.
  - destruct Hf as [Hf | Hf]; rewrite Hf; cbn [negb]; world_simpl.
    + eexists. split; reflexivity.
    + destruct (ok r); cbn [negb]; world_simpl; eexists; split; reflexivity.
Qed.

(** X15.  A failure of Ollama is reported twice: in the mode [manual]
    with the provider [ollama], a generation request that fails is
    written to the console by [callOllamaAPI], thrown again, and written
    once more by [enhance], which then returns the rule-based prompt. *)
Theorem ollama_failure_is_logged_twice (userInput ruleBasedPrompt : jsstring)
        (w : World) :
  modeOf w = lit "manual" -> providerOf w = lit "ollama" -> ollamaFails w ->
  exists e,
    console (snd (AIEnhancer.enhance userInput ruleBasedPrompt w))
    = console w ++ [e; e]
    /\ fst (AIEnhancer.enhance userInput ruleBasedPrompt w)
       = Returns (fallbackResult ruleBasedPrompt).
Proof.
  intros Hm Hp Hf.
  destruct (callOllamaAPI_logs userInput w Hf) as (e & He & Hc).
  exists e.
  unfold AIEnhancer.enhance. rewrite run_bind.
  unfold configGet, get. cbn [fst snd]. fold (modeOf w). rewrite Hm.
  change (str_eqb (lit "manual") (lit "ruleOnly")) with false. cbv iota.
  rewrite run_bind, run_tryCatch. unfold AIEnhancer.tryEnhance.
  change (str_eqb (lit "manual") (lit "auto")) with false.
  change (str_eqb (lit "manual") (lit "manual")) with true. cbv iota.
  rewrite run_bind. unfold AIEnhancer.enhanceWithManualAPI.
  rewrite run_bind. unfold configGet, get. cbn [fst snd].
  fold (providerOf w). rewrite Hp.
  change (str_eqb (lit "ollama") (lit "ollama")) with true. cbv iota.
  rewrite He. cbn [fst snd].
  unfold bind, consoleError, modify, ret. world_simpl.
  rewrite Hc, <- app_assoc. split; reflexivity.
Qed.

Lemma ollama_failure_is_logged_twice_witness :
  let w := world (settings (given "manual") unset unset) serverError in
  modeOf w = lit "manual" /\ providerOf w = lit "ollama" /\ ollamaFails w
  /\ exists e,
      console (snd (AIEnhancer.enhance (lit "btn broken")
                      (lit "Fix the button.") w))
      = console w ++ [e; e]
      /\ fst (AIEnhancer.enhance (lit "btn broken") (lit "Fix the button.") w)
         = Returns (fallbackResult (lit "Fix the button.")).
Proof.
  cbv zeta. split; [reflexivity|]. split; [reflexivity|].
  assert (Hf : ollamaFails (world (settings (given "manual") unset unset)
                                  serverError)).
  { intros n e m u. left. reflexivity. }
  split; [exact Hf|].
  exact (ollama_failure_is_logged_twice (lit "btn broken")
           (lit "Fix the button.")
           (world (settings (given "manual") unset unset) serverError)
           eq_refl eq_refl Hf).
Defined.

(* ===================================================================== *)
(** * The status shown to the user *)
(* ===================================================================== *)

(** X16.  [getStatus] never throws and never asks a backend for a text:
    whatever the settings and the network, it returns a status that
    carries the configured mode, and the requests it sends are requests
    for the tags of the configured Ollama endpoint. *)
Theorem getStatus_only_asks_for_tags (w : World) :
  exists st tags,
    fst (AIEnhancer.getStatus w) = Returns st
    /\ AIEnhancer.statusMode st = modeOf w
    /\ issued w (snd (AIEnhancer.getStatus w)) = tags
    /\ Forall (tagsRequest w) tags.
Proof.
  pose proof (total_checkOllama w) as [o Ho].
  pose proof (checkOllama_run w) as (tags & Hc & Ht & _).
  unfold AIEnhancer.getStatus, bind, configGet, get, ret.
  fold (modeOf w) (providerOf w).
  destruct (str_eqb (modeOf w) (lit "ruleOnly")).
  { eexists; exists []. unfold issued. cbn [fst snd].
    rewrite skipn_all. repeat split. constructor. }
  destruct (str_eqb (modeOf w) (lit "manual")
            && str_eqb (providerOf w) (lit "ollama")).
  { destruct (AIEnhancer.checkOllama w) as [[o'|e] w1]; cbn [fst snd] in *;
      [|discriminate].
    eexists; exists tags. cbn [fst snd].
    repeat split; auto. now apply issued_app. }
  destruct (str_eqb (modeOf w) (lit "manual")).
  { eexists; exists []. unfold issued. cbn [fst snd].
    rewrite skipn_all. repeat split. constructor. }
  destruct (AIEnhancer.checkOllama w) as [[o'|e] w1]; cbn [fst snd] in *;
    [|discriminate].
  destruct (fst o').
  { eexists; exists tags. cbn [fst snd].
    repeat split; auto. now apply issued_app. }
  pose proof (total_detect false w1) as [d Hd].
  pose proof (detect_run false w1) as [Hc2 _].
  destruct (LLMDetector.detect false w1) as [[d'|e] w2]; cbn [fst snd] in *;
    [|discriminate].
  eexists; exists tags. cbn [fst snd].
  repeat split; auto. apply issued_app. now rewrite Hc2.
Qed.

(** X17.  In the mode [manual] with a provider other than Ollama,
    [getStatus] sends nothing and probes nothing: the world stays as it
    is.  It calls the provider available as soon as a key is set, and it
    names every provider but [anthropic] "OpenAI". *)
Theorem getStatus_of_a_cloud_provider (w : World) :
  modeOf w = lit "manual" -> providerOf w <> lit "ollama" ->
  AIEnhancer.getStatus w
  = (Returns {| AIEnhancer.statusMode := lit "manual";
                AIEnhancer.statusProvider := if str_eqb (providerOf w) (lit "anthropic")
                                  then lit "Anthropic" else lit "OpenAI";
                AIEnhancer.statusAvailable := truthy (apiKeyOf w);
                AIEnhancer.statusModels := None |}, w).
Proof.
  intros Hm Hp. unfold AIEnhancer.getStatus, bind, configGet, get, ret.
  fold (modeOf w) (providerOf w) (apiKeyOf w). rewrite Hm.
  change (str_eqb (lit "manual") (lit "ruleOnly")) with false.
  change (str_eqb (lit "manual") (lit "manual")) with true.
  destruct (str_eqb (providerOf w) (lit "ollama")) eqn:E;
    [apply str_eqb_true in E; contradiction|].
  reflexivity.
Qed.

Lemma getStatus_of_a_cloud_provider_witness :
  let w := world (settings (given "manual") (given "gemini") (given "key"))
                 unreachable in
  modeOf w = lit "manual" /\ providerOf w <> lit "ollama"
  /\ AIEnhancer.getStatus w
     = (Returns {| AIEnhancer.statusMode := lit "manual"; AIEnhancer.statusProvider := lit "OpenAI";
                   AIEnhancer.statusAvailable := true; AIEnhancer.statusModels := None |}, w).
Proof.
  cbv zeta. split; [reflexivity|]. split; [discriminate|].
  apply (getStatus_of_a_cloud_provider
           (world (settings (given "manual") (given "gemini") (given "key"))
                  unreachable));
    [reflexivity | discriminate].
Defined.

Lemma enhance_falls_back (u f : jsstring) (w : World) :
  aiPathFails w ->
  fst (AIEnhancer.enhance u f w) = Returns (fallbackResult f).
Proof.
  intros H. unfold AIEnhancer.enhance. rewrite run_bind.
  unfold configGet, get. cbn [fst snd]. fold (modeOf w).
  destruct (str_eqb (modeOf w) (lit "ruleOnly")); [reflexivity|].
  rewrite run_bind, run_tryCatch.
  pose proof (tryEnhance_degrades u f w H) as P.
  destruct (fst (AIEnhancer.tryEnhance (modeOf w) u f w))
    as [[r|] | e]; cbn [fst snd]; try reflexivity.
  now rewrite P.
Qed.

(** X18.  The status and the enhancement disagree on an unknown provider:
    in the mode [manual], with a key and a provider that is none of
    [ollama], [anthropic] and [openai], [getStatus] announces "OpenAI" as
    available, while [enhance] sends no request and returns the
    rule-based prompt. *)
Theorem unknown_provider_looks_available (userInput ruleBasedPrompt : jsstring)
        (w : World) :
  modeOf w = lit "manual" ->
  providerOf w <> lit "ollama" -> providerOf w <> lit "anthropic" ->
  providerOf w <> lit "openai" -> apiKeyOf w <> [] ->
  (exists st,
      fst (AIEnhancer.getStatus w) = Returns st
      /\ AIEnhancer.statusProvider st = lit "OpenAI" /\ AIEnhancer.statusAvailable st = true)
  /\ fst (AIEnhancer.enhance userInput ruleBasedPrompt w)
     = Returns (fallbackResult ruleBasedPrompt)
  /\ issued w (snd (AIEnhancer.enhance userInput ruleBasedPrompt w)) = [].
Proof.
  intros Hm Ho Ha Hp Hk.
  pose proof (proj2 (str_eqb_false _ _) Ho) as Eo.
  pose proof (proj2 (str_eqb_false _ _) Ha) as Ea.
  pose proof (proj2 (str_eqb_false _ _) Hp) as Ep.
  assert (Ek : truthy (apiKeyOf w) = true)
    by (destruct (apiKeyOf w); [congruence | reflexivity]).
  split; [|split].
  - unfold AIEnhancer.getStatus, bind, configGet, get, ret.
    fold (modeOf w) (providerOf w). rewrite Hm, Eo, Ea.
    change (str_eqb (lit "manual") (lit "ruleOnly")) with false.
    change (str_eqb (lit "manual") (lit "manual")) with true.
    cbn [andb]. cbv beta iota. fold (apiKeyOf w). rewrite Ek.
    eexists. repeat split.
  - apply enhance_falls_back. right. split; [now left|].
    split; [exact Ho|]. right. now split.
  - assert (Hn : manualRequests w userInput = []).
    { unfold manualRequests. now rewrite Eo, Ek, Ea, Ep. }
    destruct (enhance_run userInput ruleBasedPrompt w)
      as (tags & gen & Hc & _ & _ & Hman & _).
    destruct (Hman Hm) as (-> & -> & _). rewrite Hn in Hc.
    now apply issued_app.
Qed.

Lemma unknown_provider_looks_available_witness :
  let w := world (settings (given "manual") (given "gemini") (given "key"))
                 (answering "Better.") in
  (exists st,
      fst (AIEnhancer.getStatus w) = Returns st
      /\ AIEnhancer.statusProvider st = lit "OpenAI"
      /\ AIEnhancer.statusAvailable st = true)
  /\ fst (AIEnhancer.enhance (lit "btn broken") (lit "Fix the button.") w)
     = Returns (fallbackResult (lit "Fix the button."))
  /\ issued w (snd (AIEnhancer.enhance (lit "btn broken")
                      (lit "Fix the button.") w)) = [].
Proof.
  cbv zeta.
  apply (unknown_provider_looks_available (lit "btn broken")
           (lit "Fix the button.")
           (world (settings (given "manual") (given "gemini") (given "key"))
                  (answering "Better.")));
    solve [reflexivity | discriminate].
Defined.

(* ===================================================================== *)
(** * The assistants the detector finds *)
(* ===================================================================== *)

Ltac probe_cases :=
  repeat (world_simpl; cbv beta iota;
          match goal with
          | |- context [includes ?a ?b] => destruct (includes a b)
          | |- context [execSucceeds ?e ?c] => destruct (execSucceeds e c)
          | |- context [extensionInstalled ?e ?c] =>
            destruct (extensionInstalled e c)
          end);
  world_simpl; cbn [orb].

Lemma getAllAvailable_found (w : World) :
  fst (LLMDetector.getAllAvailable w)
  = Returns (map entryOf (found (env w)) ++ [entryOf manual]).
Proof.
  unfold LLMDetector.getAllAvailable, LLMDetector.isCursorEditor,
    LLMDetector.isClaudeCodeInstalled, LLMDetector.isContinueInstalled,
    LLMDetector.isCodyInstalled, LLMDetector.isCopilotInstalled,
    LLMDetector.execAsync, LLMDetector.getExtension, bind, probe, ret,
    found, priority, LLMDetector.pushIf.
  cbn [filter installed]. world_simpl.
  probe_cases; reflexivity.
Qed.

(** X20.  [getAllAvailable] lists every assistant the environment shows,
    once and in the order of priority, and closes the list with the
    manual configuration, so the list is never empty.  It sends nothing
    and neither reads nor writes the cache of the detector. *)
Theorem getAllAvailable_lists_what_is_installed (w : World) :
  let w' := snd (LLMDetector.getAllAvailable w) in
  fst (LLMDetector.getAllAvailable w)
  = Returns (map entryOf (found (env w)) ++ [entryOf manual])
  /\ calls w' = calls w
  /\ detector w' = detector w
  /\ enhancer w' = enhancer w.
Proof.
  cbv zeta.
  unfold LLMDetector.getAllAvailable, LLMDetector.isCursorEditor,
    LLMDetector.isClaudeCodeInstalled, LLMDetector.isContinueInstalled,
    LLMDetector.isCodyInstalled, LLMDetector.isCopilotInstalled,
    LLMDetector.execAsync, LLMDetector.getExtension, bind, probe, ret,
    found, priority, LLMDetector.pushIf.
  cbn [filter installed]. world_simpl.
  probe_cases; repeat split.
Qed.

Lemma runDetection_found (w : World) :
  fst (LLMDetector.runDetection w)
  = Returns (hd (entryOf none) (map entryOf (found (env w)))).
Proof.
  unfold LLMDetector.runDetection, LLMDetector.isCursorEditor,
    LLMDetector.isClaudeCodeInstalled, LLMDetector.isContinueInstalled,
    LLMDetector.isCodyInstalled, LLMDetector.isCopilotInstalled,
    LLMDetector.execAsync, LLMDetector.getExtension, bind, probe, ret,
    found, priority.
  cbn [filter installed]. world_simpl.
  probe_cases; reflexivity.
Qed.

(** X21.  A fresh detection returns the first entry of the list of
    [getAllAvailable]: the assistant of highest priority among those the
    environment shows; when the list holds the manual configuration only,
    the detection returns "None detected", which can not enhance. *)
Theorem detect_returns_first_available (w : World) :
  exists l,
    fst (LLMDetector.getAllAvailable w) = Returns (l ++ [entryOf manual])
    /\ fst (LLMDetector.detect true w) = Returns (hd (entryOf none) l)
    /\ (l = [] -> canEnhance (hd (entryOf none) l) = false).
Proof.
  exists (map entryOf (found (env w))).
  split; [apply getAllAvailable_found|].
  split; [|intros ->; reflexivity].
  unfold LLMDetector.detect, bind, get. cbn [LLMDetector.cacheHit].
  pose proof (runDetection_found w) as H.
  destruct (LLMDetector.runDetection w) as [[r|e] w1]; cbn [fst snd] in *;
    [|discriminate].
  unfold modify, ret. cbn [fst]. exact H.
Qed.

(** X22.  Inside Cursor the detection stops at the name of the
    application: no command is run and no extension is looked up; the
    result is Cursor, stored in the cache with the time of the call. *)
Theorem detect_inside_cursor (w : World) :
  installed (env w) cursor = true ->
  LLMDetector.detect true w
  = (Returns (entryOf cursor),
     setDetector {| cachedResult := Some (entryOf cursor);
                    lastCheck := now w |}
                 (setProbes (probes w ++ [ProbeAppName]) w)).
Proof.
  cbn [installed]. intros H.
  unfold LLMDetector.detect, LLMDetector.runDetection,
    LLMDetector.isCursorEditor, bind, get, probe, ret, modify.
  cbn [LLMDetector.cacheHit]. world_simpl. rewrite H. reflexivity.
Qed.

Lemma detect_inside_cursor_witness :
  let w := {| config := settings unset unset unset; now := 5%Z;
              env := cursorEnv; net := unreachable;
              calls := []; probes := []; console := [];
              detector := {| cachedResult := None; lastCheck := 0%Z |};
              enhancer := {| ollamaAvailable := None; ollamaModels := [] |} |} in
  installed (env w) cursor = true
  /\ probes (snd (LLMDetector.detect true w)) = [ProbeAppName]
  /\ fst (LLMDetector.detect true w) = Returns (entryOf cursor).
Proof.
  cbv zeta. split; [reflexivity|].
  rewrite (detect_inside_cursor
             {| config := settings unset unset unset; now := 5%Z;
                env := cursorEnv; net := unreachable;
                calls := []; probes := []; console := [];
                detector := {| cachedResult := None; lastCheck := 0%Z |};
                enhancer := {| ollamaAvailable := None;
                               ollamaModels := [] |} |} eq_refl).
  split; reflexivity.
Defined.

(* ===================================================================== *)
(** * The git status of the workspace *)
(* ===================================================================== *)

